(** * mp3fs: the MP3 encoder front end ([src/codecs/mp3_encoder.cc])

    A shallow embedding of [Mp3Encoder]: the size estimate
    ([calculate_size]), the ID3 tag handling ([set_text_tag],
    [set_stream_params], [render_tag]) and the two encoding steps
    ([encode_pcm_data], [encode_finish]).

    Conventions.
    - C++ integers are [Z]; every conversion and every unsigned operation
      has its wrap-around written out ([wrap64], [wrap32], [to_ptrdiff]).
    - A C string is a [string] (a sequence of 8-bit characters without the
      terminating NUL); a possibly null [const char*] is an [option string].
    - Undefined behaviour (division by zero, dereferencing a null pointer,
      reading past the end of an array) is the result [None].
    - Memory exhaustion is outside the model: the allocating helpers of
      libid3tag always succeed, so the [if (ucs4 != nullptr)] guards are
      always taken.
    - LAME and libid3tag are external libraries. LAME is an abstract
      interface ([Lame]); of libid3tag the tag structure is modelled after
      its API and the two byte-level routines stay abstract ([Id3Lib]).
    - The [Buffer] class is not part of the modelled sources. The encoder
      only talks to it through five methods, so [buffer_] is the log of the
      calls made on it; [Buffer.replay] runs such a log on any
      implementation of the interface. *)

From stdpp Require Import base option list gmap strings pretty.
From Stdlib Require Import ZArith Lia.
From Stdlib.Strings Require Import Byte.

Local Open Scope Z_scope.

(** ** Machine integers *)

(** [size_t], [uint64_t], [unsigned long]: arithmetic modulo 2^64. *)
Definition wrap64 (x : Z) : Z := x mod 2 ^ 64.

(** [unsigned int]: arithmetic modulo 2^32. *)
Definition wrap32 (x : Z) : Z := x mod 2 ^ 32.

(** [static_cast<int>] of an integer value. *)
Definition to_int (x : Z) : Z :=
  let y := wrap32 x in if y <? 2 ^ 31 then y else y - 2 ^ 32.

(** [static_cast<std::ptrdiff_t>] of a [size_t] value. *)
Definition to_ptrdiff (x : Z) : Z :=
  let y := wrap64 x in if y <? 2 ^ 63 then y else y - 2 ^ 64.

Definition PTRDIFF_MAX : Z := 2 ^ 63 - 1.

(** ** Constants of the translation unit *)

Definition kMaxVbrFrameSize : Z := 2880.
Definition kMillisPerSec : Z := 1000.
Definition kBufferSlop : Z := 7200.
Definition kBitsPerByte : Z := 8.

(** Modelled from the spec: [kId3v1TagLength] is declared in
    [mp3_encoder.h], which is not among the sources. The spec places the
    legacy trailer at "end-128..end", and the comment above [render_tag]
    says the ID3v1 tag is written 128 bytes from the end. *)
Definition kId3v1TagLength : Z := 128.

(** Modelled from the spec: the metadata-field enumeration of [coders.h]
    (not among the sources), numbered from 0 in the order in which the spec
    lists the fields. Only the distinctness of the values matters. *)
Definition METATAG_TITLE : Z := 0.
Definition METATAG_ARTIST : Z := 1.
Definition METATAG_ALBUM : Z := 2.
Definition METATAG_GENRE : Z := 3.
Definition METATAG_DATE : Z := 4.
Definition METATAG_COMPOSER : Z := 5.
Definition METATAG_PERFORMER : Z := 6.
Definition METATAG_COPYRIGHT : Z := 7.
Definition METATAG_ENCODEDBY : Z := 8.
Definition METATAG_ORGANIZATION : Z := 9.
Definition METATAG_CONDUCTOR : Z := 10.
Definition METATAG_ALBUMARTIST : Z := 11.
Definition METATAG_ENCODER : Z := 12.
Definition METATAG_TRACKLENGTH : Z := 13.
Definition METATAG_TRACKNUMBER : Z := 14.
Definition METATAG_TRACKTOTAL : Z := 15.
Definition METATAG_DISCNUMBER : Z := 16.
Definition METATAG_DISCTOTAL : Z := 17.

(** [Mp3Encoder::kMetatagMap]: the association from the standard field
    values to ID3 frame names. *)
Definition kMetatagMap : gmap Z string :=
  list_to_map
    [ (METATAG_TITLE, "TIT2"); (METATAG_ARTIST, "TPE1");
      (METATAG_ALBUM, "TALB"); (METATAG_GENRE, "TCON");
      (METATAG_DATE, "TDRC"); (METATAG_COMPOSER, "TCOM");
      (METATAG_PERFORMER, "TOPE"); (METATAG_COPYRIGHT, "TCOP");
      (METATAG_ENCODEDBY, "TENC"); (METATAG_ORGANIZATION, "TPUB");
      (METATAG_CONDUCTOR, "TPE3"); (METATAG_ALBUMARTIST, "TPE2");
      (METATAG_ENCODER, "TSSE"); (METATAG_TRACKLENGTH, "TLEN") ]%string.

(** The fields of the global [params] that the encoder reads. *)
Record Mp3fsParams : Type := {
  bitrate : Z;
  quality : Z;
  statcachesize : Z;
  vbr : Z
}.

(** ** Byte vectors *)

(** [std::vector<uint8_t> v(n)]: [n] zero bytes. *)
Definition zero_bytes (n : Z) : list byte := replicate (Z.to_nat n) x00.

(** [v.resize(n)]: keep the first [n] elements, pad with zeros. *)
Definition resize (n : Z) (v : list byte) : list byte :=
  take (Z.to_nat n) v ++ replicate (Z.to_nat n - length v)%nat x00.

(** A library routine wrote [out] at the start of a vector of [n] zero
    bytes. *)
Definition filled (n : Z) (out : list byte) : list byte := resize n out.

(** ** Text, as libid3tag sees it *)

(** [id3_ucs4_t*]: a sequence of code points. *)
Definition ucs4 : Type := list N.

Definition string_to_list (s : string) : list Ascii.ascii :=
  String.list_ascii_of_string s.
Definition list_to_string (l : list Ascii.ascii) : string :=
  String.string_of_list_ascii l.

(** [id3_latin1_ucs4duplicate]: every Latin-1 byte is its own code point. *)
Definition id3_latin1_ucs4duplicate (s : string) : ucs4 :=
  Ascii.N_of_ascii <$> string_to_list s.

(** [id3_ucs4_latin1duplicate]: code points above 0xff become the
    replacement character 0xb7. *)
Definition id3_latin1_encodechar (c : N) : Ascii.ascii :=
  if (c <=? 255)%N then Ascii.ascii_of_N c else Ascii.ascii_of_N 183.

Definition id3_ucs4_latin1duplicate (u : ucs4) : string :=
  list_to_string (id3_latin1_encodechar <$> u).

(** ** The ID3 tag *)

Inductive id3_field_textencoding : Type :=
| ID3_FIELD_TEXTENCODING_ISO_8859_1
| ID3_FIELD_TEXTENCODING_UTF_16
| ID3_FIELD_TEXTENCODING_UTF_16BE
| ID3_FIELD_TEXTENCODING_UTF_8.

(** A text frame: its four-character id, field 0 (the text encoding) and
    field 1 (the string list). *)
Record id3_frame : Type := {
  frame_id : string;
  frame_textencoding : id3_field_textencoding;
  frame_strings : list ucs4
}.

(** The tag: its frames in the order of attachment, the two options the
    encoder touches and the padded length. *)
Record id3_tag : Type := {
  tag_frames : list id3_frame;
  tag_compression : bool;
  tag_id3v1 : bool;
  tag_paddedsize : Z
}.

Definition id3_frame_new (id : string) : id3_frame :=
  {| frame_id := id;
     frame_textencoding := ID3_FIELD_TEXTENCODING_ISO_8859_1;
     frame_strings := [] |}.

Definition has_id (id : string) (f : id3_frame) : Prop := frame_id f = id.

#[global] Instance has_id_dec id f : Decision (has_id id f).
Proof. unfold has_id. apply _. Defined.

(** [id3_tag_findframe(tag, id, 0)]: the first frame named [id] and its
    position in the tag, if there is one. *)
Definition id3_tag_findframe (t : id3_tag) (id : string)
    : option (nat * id3_frame) :=
  list_find (has_id id) (tag_frames t).

Definition with_frames (t : id3_tag) (fs : list id3_frame) : id3_tag :=
  {| tag_frames := fs;
     tag_compression := tag_compression t;
     tag_id3v1 := tag_id3v1 t;
     tag_paddedsize := tag_paddedsize t |}.

(** [id3_tag_attachframe]: the frame goes to the end of the tag. *)
Definition id3_tag_attachframe (t : id3_tag) (f : id3_frame) : id3_tag :=
  with_frames t (tag_frames t ++ [f]).

(** An in-place change of the frame at position [i]. *)
Definition update_frame (i : nat) (g : id3_frame → id3_frame)
    (t : id3_tag) : id3_tag :=
  with_frames t (alter g i (tag_frames t)).

Definition id3_field_settextencoding (enc : id3_field_textencoding)
    (f : id3_frame) : id3_frame :=
  {| frame_id := frame_id f;
     frame_textencoding := enc;
     frame_strings := frame_strings f |}.

(** [id3_field_addstring]: one more value at the end of the string list. *)
Definition id3_field_addstring (u : ucs4) (f : id3_frame) : id3_frame :=
  {| frame_id := frame_id f;
     frame_textencoding := frame_textencoding f;
     frame_strings := frame_strings f ++ [u] |}.

(** [id3_field_setstrings]: the string list is replaced. *)
Definition id3_field_setstrings (us : list ucs4) (f : id3_frame) : id3_frame :=
  {| frame_id := frame_id f;
     frame_textencoding := frame_textencoding f;
     frame_strings := us |}.

(** [id3_field_getstrings(field, 0)]: the first value, null if none. *)
Definition id3_field_getstrings (f : id3_frame) : option ucs4 :=
  head (frame_strings f).

(** [id3_tag_options(tag, ID3_TAG_OPTION_COMPRESSION, 0)]. *)
Definition clear_compression (t : id3_tag) : id3_tag :=
  {| tag_frames := tag_frames t;
     tag_compression := false;
     tag_id3v1 := tag_id3v1 t;
     tag_paddedsize := tag_paddedsize t |}.

(** [id3_tag_options(tag, ID3_TAG_OPTION_ID3V1, ~0)]. *)
Definition set_id3v1 (t : id3_tag) : id3_tag :=
  {| tag_frames := tag_frames t;
     tag_compression := tag_compression t;
     tag_id3v1 := true;
     tag_paddedsize := tag_paddedsize t |}.

Definition id3_tag_setlength (t : id3_tag) (len : Z) : id3_tag :=
  {| tag_frames := tag_frames t;
     tag_compression := tag_compression t;
     tag_id3v1 := tag_id3v1 t;
     tag_paddedsize := len |}.

(** The two routines of libid3tag that work on bytes. *)
Class Id3Lib : Type := {
  (** decode a UTF-8 C string into code points *)
  id3_utf8_ucs4duplicate : string → ucs4;
  (** the bytes that [id3_tag_render] produces for a tag; called with a
      null buffer it returns their number *)
  id3_tag_render : id3_tag → list byte
}.

(** ** The Buffer interface *)

Module Buffer.

(** A call on [*buffer_], with its arguments. *)
Inductive call : Type :=
| write (data : list byte) (extend_buffer : bool)
| write_end (data : list byte) (offset : Z)
| write_to (data : list byte) (offset : Z)
| truncate
| extend.

Definition is_write_to (c : call) : bool :=
  match c with write_to _ _ => true | _ => false end.

Definition is_write_end (c : call) : bool :=
  match c with write_end _ _ => true | _ => false end.

Definition is_truncate_or_extend (c : call) : bool :=
  match c with truncate | extend => true | _ => false end.

(** An implementation of the five methods, with two observations: the
    number of bytes appended so far and the byte at an absolute offset. *)
Class Ops (B : Type) : Type := {
  do_write : list byte → bool → B → B;
  do_write_end : list byte → Z → B → B;
  do_write_to : list byte → Z → B → B;
  do_truncate : B → B;
  do_extend : B → B;
  tell : B → Z;
  byte_at : B → Z → option byte
}.

Definition apply `{Ops B} (c : call) (b : B) : B :=
  match c with
  | write d x => do_write d x b
  | write_end d off => do_write_end d off b
  | write_to d off => do_write_to d off b
  | truncate => do_truncate b
  | extend => do_extend b
  end.

(** Run a log of calls, oldest first. *)
Definition replay `{Ops B} (log : list call) (b : B) : B :=
  foldl (λ b c, apply c b) b log.

(** Modelled from the spec: what the Buffer promises of append, truncate
    and extend. The bytes already appended stay where they are, and
    appending only grows the appended part. *)
Record Laws `{Ops B} : Prop := {
  tell_write : ∀ d x b, tell b ≤ tell (do_write d x b);
  byte_at_write : ∀ d x b i,
    0 ≤ i < tell b → byte_at (do_write d x b) i = byte_at b i;
  byte_at_truncate : ∀ b i,
    0 ≤ i < tell b → byte_at (do_truncate b) i = byte_at b i;
  byte_at_extend : ∀ b i,
    0 ≤ i < tell b → byte_at (do_extend b) i = byte_at b i
}.
Global Arguments Laws B {_}.

(** Modelled from the spec: the Buffer class ([buffer.h] is not among the
    sources). The appended bytes form the main segment of current length
    L; the trailer block handed to [write_end] sits at its absolute
    offset, so that the target length T is that offset plus the length
    of the block (distance 0 from the final end in the spec's terms).
    [write_to] overwrites at its absolute offset and, where the main
    segment is too short for the block, first grows it with zero bytes,
    so that no byte of the block is dropped; [truncate] keeps exactly the
    bytes produced and moves the trailer right behind them; [extend]
    pads the main segment with zero bytes up to the trailer. *)
Record Simple : Type := {
  main_data : list byte;
  end_data : list byte;
  end_offset : Z
}.

Definition overwrite (d : list byte) (off : Z) (l : list byte) : list byte :=
  let at_ := Z.to_nat off in
  let grown := l ++ replicate (at_ + length d - length l)%nat x00 in
  take at_ grown ++ d ++ drop (at_ + length d) grown.

Definition simple_byte_at (b : Simple) (i : Z) : option byte :=
  if i <? 0 then None
  else if i <? Z.of_nat (length (main_data b))
  then main_data b !! Z.to_nat i
  else if end_offset b <=? i
  then end_data b !! Z.to_nat (i - end_offset b)
  else None.

#[global] Instance simple_ops : Ops Simple := {|
  do_write d _ b :=
    {| main_data := main_data b ++ d;
       end_data := end_data b; end_offset := end_offset b |};
  do_write_end d off b :=
    {| main_data := main_data b; end_data := d; end_offset := off |};
  do_write_to d off b :=
    {| main_data := overwrite d off (main_data b);
       end_data := end_data b; end_offset := end_offset b |};
  do_truncate b :=
    {| main_data := main_data b; end_data := end_data b;
       end_offset := Z.of_nat (length (main_data b)) |};
  do_extend b :=
    {| main_data :=
         main_data b ++ zero_bytes (end_offset b - Z.of_nat (length (main_data b)));
       end_data := end_data b; end_offset := end_offset b |};
  tell b := Z.of_nat (length (main_data b));
  byte_at := simple_byte_at
|}.

Definition empty : Simple :=
  {| main_data := []; end_data := []; end_offset := 0 |}.

End Buffer.

(** ** The LAME interface *)

(** The state behind [lame_t] and the library calls the encoder makes.
    A call that writes into a caller's buffer returns the bytes written
    along with its result. *)
Class Lame : Type := {
  lame_t : Type;
  lame_set_num_samples : lame_t → Z → lame_t;
  lame_set_in_samplerate : lame_t → Z → lame_t;
  lame_set_num_channels : lame_t → Z → lame_t;
  lame_init_params : lame_t → Z * lame_t;
  lame_get_totalframes : lame_t → Z;
  lame_get_in_samplerate : lame_t → Z;
  lame_get_out_samplerate : lame_t → Z;
  lame_get_num_channels : lame_t → Z;
  (** [lame_encode_buffer_int(l, lbuf, rbuf, nsamples, mp3buf, size)] *)
  lame_encode_buffer_int :
    lame_t → list Z → list Z → Z → Z → Z * list byte * lame_t;
  (** [lame_encode_flush(l, mp3buf, size)] *)
  lame_encode_flush : lame_t → Z → Z * list byte * lame_t;
  (** [lame_get_lametag_frame(l, buffer, size)] *)
  lame_get_lametag_frame : lame_t → Z → Z * list byte
}.

(** ** The encoder *)

Section Encoder.

Context `{Lame} `{Id3Lib}.

Record Mp3Encoder : Type := {
  id3tag_ : id3_tag;
  lame_encoder_ : lame_t;
  id3size_ : Z;
  buffer_ : list Buffer.call
}.

Definition with_id3tag (e : Mp3Encoder) (t : id3_tag) : Mp3Encoder :=
  {| id3tag_ := t; lame_encoder_ := lame_encoder_ e;
     id3size_ := id3size_ e; buffer_ := buffer_ e |}.

Definition with_lame (e : Mp3Encoder) (l : lame_t) : Mp3Encoder :=
  {| id3tag_ := id3tag_ e; lame_encoder_ := l;
     id3size_ := id3size_ e; buffer_ := buffer_ e |}.

Definition with_id3size (e : Mp3Encoder) (n : Z) : Mp3Encoder :=
  {| id3tag_ := id3tag_ e; lame_encoder_ := lame_encoder_ e;
     id3size_ := n; buffer_ := buffer_ e |}.

(** [buffer_->m(...)]: the call joins the log. *)
Definition buffer_call (e : Mp3Encoder) (c : Buffer.call) : Mp3Encoder :=
  {| id3tag_ := id3tag_ e; lame_encoder_ := lame_encoder_ e;
     id3size_ := id3size_ e; buffer_ := buffer_ e ++ [c] |}.

(** A new frame is created, attached to the tag, and its text encoding is
    set to UTF-8 (the frame is shared by pointer, so setting the encoding
    after attaching it changes the attached frame). The result is the tag
    and the position of the new frame. *)
Definition attach_new (t : id3_tag) (name : string) : id3_tag * nat :=
  let frame := id3_frame_new name in
  (id3_tag_attachframe t
     (id3_field_settextencoding ID3_FIELD_TEXTENCODING_UTF_8 frame),
   length (tag_frames t)).

Definition is_number_or_total (key : Z) : bool :=
  (key =? METATAG_TRACKNUMBER) || (key =? METATAG_TRACKTOTAL) ||
  (key =? METATAG_DISCNUMBER) || (key =? METATAG_DISCTOTAL).

(** [Mp3Encoder::set_text_tag]. *)
Definition set_text_tag (e : Mp3Encoder) (key : Z) (value : option string)
    : option Mp3Encoder :=
  match value with
  | None => Some e
  | Some value =>
      match kMetatagMap !! key with
      | Some name =>
          let '(t, i) :=
            match id3_tag_findframe (id3tag_ e) name with
            | Some (i, _) => (id3tag_ e, i)
            | None => attach_new (id3tag_ e) name
            end in
          let u := id3_utf8_ucs4duplicate value in
          Some (with_id3tag e (update_frame i (id3_field_addstring u) t))
      | None =>
          (* Special handling for track or disc numbers. *)
          if is_number_or_total key then
            let tagname : string :=
              if (key =? METATAG_TRACKNUMBER) || (key =? METATAG_TRACKTOTAL)
              then "TRCK" else "TPOS" in
            '(t, i, lat) ←
              match id3_tag_findframe (id3tag_ e) tagname with
              | Some (i, frame) =>
                  pre ← id3_field_getstrings frame;
                  Some (id3tag_ e, i, id3_ucs4_latin1duplicate pre)
              | None =>
                  let '(t, i) := attach_new (id3tag_ e) tagname in
                  Some (t, i, ""%string)
              end;
            let tempstr : string :=
              if (key =? METATAG_TRACKNUMBER) || (key =? METATAG_DISCNUMBER)
              then String.append value lat
              else String.append lat (String.append "/" value) in
            let u := id3_latin1_ucs4duplicate tempstr in
            Some (with_id3tag e (update_frame i (id3_field_setstrings [u]) t))
          else Some e
      end
  end.

(** [Mp3Encoder::calculate_size]. The product and the quotient are
    [uint64_t], the sum is [size_t]. *)
Definition mp3_data_size (p : Mp3fsParams) (e : Mp3Encoder) (samplerate : Z)
    : option Z :=
  let conversion_factor := 144000 in
  if wrap64 samplerate =? 0 then None
  else Some
    (wrap64 (wrap64 (wrap64 (lame_get_totalframes (lame_encoder_ e))
                     * conversion_factor)
             * wrap64 (bitrate p))
     / wrap64 samplerate).

Definition calculate_size (p : Mp3fsParams) (e : Mp3Encoder) : option Z :=
  if negb (vbr p =? 0) then
    data ← mp3_data_size p e (lame_get_in_samplerate (lame_encoder_ e));
    Some (wrap64 (wrap64 (wrap64 (id3size_ e + kId3v1TagLength)
                          + kMaxVbrFrameSize)
                  + data))
  else
    data ← mp3_data_size p e (lame_get_out_samplerate (lame_encoder_ e));
    Some (wrap64 (wrap64 (id3size_ e + kId3v1TagLength) + data)).

(** Modelled from the spec: the filesystem layer that answers [getattr] is
    not among the sources. Before encoding starts the spec lets it answer
    with the encoder's [calculate_size()]. *)
Definition getattr_size_before_encoding (p : Mp3fsParams) (e : Mp3Encoder)
    : option Z :=
  calculate_size p e.

(** [Mp3Encoder::set_stream_params]. *)
Definition set_stream_params (e : Mp3Encoder)
    (num_samples sample_rate channels : Z) : option (Z * Mp3Encoder) :=
  let l1 := lame_set_num_samples (lame_encoder_ e) num_samples in
  let l2 := lame_set_in_samplerate l1 sample_rate in
  let l3 := lame_set_num_channels l2 channels in
  let '(rc, l4) := lame_init_params l3 in
  let e := with_lame e l4 in
  if rc =? -1 then Some (-1, e)
  else if wrap64 sample_rate =? 0 then None
  else
    let millis := wrap64 (wrap64 num_samples * kMillisPerSec) / wrap64 sample_rate in
    let tempstr : string := pretty (Z.to_N millis) in
    e ← set_text_tag e METATAG_TRACKLENGTH (Some tempstr);
    Some (0, e).

(** [Mp3Encoder::render_tag]. *)
Definition render_tag (p : Mp3fsParams) (e : Mp3Encoder) (file_size : Z)
    : option (Z * Mp3Encoder) :=
  let t := clear_compression (id3tag_ e) in
  let extra_padding := 12 in
  let t := id3_tag_setlength t
             (wrap64 (Z.of_nat (length (id3_tag_render t)) + extra_padding)) in
  (* write v2 tag *)
  let tag24 := id3_tag_render t in
  let e := with_id3size (with_id3tag e t) (Z.of_nat (length tag24)) in
  let e := buffer_call e (Buffer.write tag24 true) in
  (* Write v1 tag at end of buffer. *)
  let t := set_id3v1 t in
  let e := with_id3tag e t in
  let tag1 := filled kId3v1TagLength (id3_tag_render t) in
  file_size ← (if file_size =? 0 then calculate_size p e else Some file_size);
  let e := buffer_call e
             (Buffer.write_end tag1
                (to_ptrdiff (wrap64 (file_size - kId3v1TagLength)))) in
  Some (0, e).

(** The final size [render_tag] works with: the one given, or the
    estimate when 0 is given. The estimate is taken after [id3size_] has
    been set, and [e'] is the encoder as [render_tag] leaves it. *)
Definition final_size (p : Mp3fsParams) (e' : Mp3Encoder) (file_size : Z)
    : option Z :=
  if file_size =? 0 then calculate_size p e' else Some file_size.

(** [data[c][0 .. numsamples-1]], as the loop reads them; reading past a
    channel is undefined. *)
Definition channel_samples (data : list (list Z)) (c : nat) (numsamples : Z)
    : option (list Z) :=
  if numsamples <=? 0 then Some []
  else
    ch ← data !! c;
    if Z.of_nat (length ch) <? numsamples then None
    else Some (take (Z.to_nat numsamples) ch).

(** [x << (sizeof(int) * kBitsPerByte - sample_size)] into an [int]. The
    count is a [size_t]; for a count of 32 or more (a sample size of 0,
    or above 32) the shift is undefined. *)
Definition left_align (sample_size : Z) (x : Z) : option Z :=
  let count := wrap64 (4 * kBitsPerByte - sample_size) in
  if count <? 32 then Some (to_int (Z.shiftl x count)) else None.

(** The [lame_encode_buffer_int] call of [encode_pcm_data], with the
    buffers as the function prepares them: every sample read is shifted,
    so the call is undefined as soon as one shift is. *)
Definition pcm_encode_call (e : Mp3Encoder) (data : list (list Z))
    (numsamples sample_size : Z) : option (Z * list byte * lame_t) :=
  ch0 ← channel_samples data 0 numsamples;
  lbuf ← mapM (left_align sample_size) (ch0 : list Z);
  rbuf ← (if 1 <? lame_get_num_channels (lame_encoder_ e)
          then ch1 ← channel_samples data 1 numsamples;
               mapM (left_align sample_size) (ch1 : list Z)
          else Some (replicate (Z.to_nat numsamples) 0));
  let size := wrap64 (wrap32 (wrap32 (5 * numsamples) / 4 + kBufferSlop)) in
  Some (lame_encode_buffer_int (lame_encoder_ e) lbuf rbuf
          (to_int numsamples) (to_int size)).

(** [Mp3Encoder::encode_pcm_data]. *)
Definition encode_pcm_data (e : Mp3Encoder) (data : list (list Z))
    (numsamples sample_size : Z) : option (Z * Mp3Encoder) :=
  let size := wrap64 (wrap32 (wrap32 (5 * numsamples) / 4 + kBufferSlop)) in
  '(len, out, l) ← pcm_encode_call e data numsamples sample_size;
  let e := with_lame e l in
  if len <? 0 then Some (-1, e)
  else
    let vbuffer := resize len (filled size out) in
    let e := buffer_call e (Buffer.write vbuffer false) in
    Some (0, e).

(** [Mp3Encoder::encode_finish]. *)
Definition encode_finish (p : Mp3fsParams) (e : Mp3Encoder) : Z * Mp3Encoder :=
  let '(len, out, l) :=
    lame_encode_flush (lame_encoder_ e) (to_int kBufferSlop) in
  let e := with_lame e l in
  if len <? 0 then (-1, e)
  else
    let vbuffer := resize len (filled kBufferSlop out) in
    let e := buffer_call e (Buffer.write vbuffer (0 <? statcachesize p)) in
    let e := if 0 <? statcachesize p
             then buffer_call e Buffer.truncate
             else buffer_call e Buffer.extend in
    if negb (vbr p =? 0) then
      let '(vbr_tag_size, written) :=
        lame_get_lametag_frame (lame_encoder_ e) kMaxVbrFrameSize in
      let tail := filled kMaxVbrFrameSize written in
      if kMaxVbrFrameSize <? wrap64 vbr_tag_size then (-1, e)
      else (len, buffer_call e (Buffer.write_to tail (to_ptrdiff (id3size_ e))))
    else (len, e).

(** The values of the first frame named [name], none if there is no such
    frame. *)
Definition text_values (name : string) (e : Mp3Encoder) : list ucs4 :=
  match id3_tag_findframe (id3tag_ e) name with
  | Some (_, f) => frame_strings f
  | None => []
  end.

(** The number of frames named [name]. *)
Definition count_frames (name : string) (e : Mp3Encoder) : nat :=
  length (filter (has_id name) (tag_frames (id3tag_ e))).

(** [set_text_tag] once for each value, in order. *)
Fixpoint set_text_tags (key : Z) (values : list string) (e : Mp3Encoder)
    : option Mp3Encoder :=
  match values with
  | [] => Some e
  | v :: values =>
      e ← set_text_tag e key (Some v);
      set_text_tags key values e
  end.

(** The two fields that are kept as "number/total" in one frame. *)
Inductive number_pair : Type := track_pair | disc_pair.

Definition number_key (pr : number_pair) : Z :=
  match pr with
  | track_pair => METATAG_TRACKNUMBER
  | disc_pair => METATAG_DISCNUMBER
  end.

Definition total_key (pr : number_pair) : Z :=
  match pr with
  | track_pair => METATAG_TRACKTOTAL
  | disc_pair => METATAG_DISCTOTAL
  end.

Definition pair_frame (pr : number_pair) : string :=
  match pr with
  | track_pair => "TRCK"
  | disc_pair => "TPOS"
  end.

(** The number is set, then the total. *)
Definition set_number_then_total (pr : number_pair) (n t : string)
    (e : Mp3Encoder) : option Mp3Encoder :=
  e ← set_text_tag e (number_key pr) (Some n);
  set_text_tag e (total_key pr) (Some t).

(** The total is set, then the number. *)
Definition set_total_then_number (pr : number_pair) (n t : string)
    (e : Mp3Encoder) : option Mp3Encoder :=
  e ← set_text_tag e (total_key pr) (Some t);
  set_text_tag e (number_key pr) (Some n).

End Encoder.

(** ** The spec's size formulas *)

(** The size the spec's formula gives for a fixed bit-rate when N is read,
    as the spec says, as the total source sample count. *)
Definition spec_fixed_size `{Lame} (p : Mp3fsParams) (e : Mp3Encoder)
    (N : Z) : Z :=
  id3size_ e + kId3v1TagLength
  + N * 144000 * bitrate p / lame_get_out_samplerate (lame_encoder_ e).

(** The same for a variable bit-rate. *)
Definition spec_vbr_size `{Lame} (p : Mp3fsParams) (e : Mp3Encoder)
    (N : Z) : Z :=
  id3size_ e + kId3v1TagLength + kMaxVbrFrameSize
  + N * 144000 * bitrate p / lame_get_in_samplerate (lame_encoder_ e).

(** ** A reference backend

    Small executable stand-ins for the two libraries, used to run the
    encoder on concrete inputs. *)

Module Reference.

Record lame_state : Type := {
  num_samples : Z;
  in_samplerate : Z;
  out_samplerate : Z;
  num_channels : Z;
  initialised : bool
}.

Definition lame_init : lame_state :=
  {| num_samples := 0; in_samplerate := 44100; out_samplerate := 0;
     num_channels := 2; initialised := false |}.

(** Parameters are accepted for one or two channels and a positive
    sample rate; no resampling takes place. *)
Definition init_params (l : lame_state) : Z * lame_state :=
  if (0 <? in_samplerate l) && ((num_channels l =? 1) || (num_channels l =? 2))
  then (0, {| num_samples := num_samples l;
              in_samplerate := in_samplerate l;
              out_samplerate := in_samplerate l;
              num_channels := num_channels l;
              initialised := true |})
  else (-1, l).

(** Every frame holds 1152 samples, as the comment above
    [calculate_size] has it. (LAME's own count adds the encoder delay and
    the padding of the last frame, a frame or two more.) *)
Definition totalframes (l : lame_state) : Z := (num_samples l + 1151) / 1152.

Definition low_byte (x : Z) : byte :=
  default x00 (Byte.of_N (Z.to_N (x mod 256))).

(** A toy codec: one output byte for each sample of the left channel,
    as far as the output buffer reaches; -3 before [init_params]. *)
Definition encode_buffer_int (l : lame_state) (lbuf rbuf : list Z)
    (nsamples size : Z) : Z * list byte * lame_state :=
  if initialised l then
    let out := take (Z.to_nat size) (low_byte <$> lbuf) in
    (Z.of_nat (length out), out, l)
  else (-3, [], l).

Definition encode_flush (l : lame_state) (size : Z)
    : Z * list byte * lame_state :=
  if initialised l then (4, [xff; xfb; x90; x00], l) else (-3, [], l).

Definition lametag_frame (l : lame_state) (size : Z) : Z * list byte :=
  if size <? 8 then (8, [])
  else (8, [x58; x69; x6e; x67; x00; x00; x00; x0f]).

#[global] Instance lame : Lame := {|
  lame_t := lame_state;
  lame_set_num_samples l n :=
    {| num_samples := n; in_samplerate := in_samplerate l;
       out_samplerate := out_samplerate l;
       num_channels := num_channels l; initialised := initialised l |};
  lame_set_in_samplerate l r :=
    {| num_samples := num_samples l; in_samplerate := r;
       out_samplerate := out_samplerate l;
       num_channels := num_channels l; initialised := initialised l |};
  lame_set_num_channels l c :=
    {| num_samples := num_samples l; in_samplerate := in_samplerate l;
       out_samplerate := out_samplerate l;
       num_channels := c; initialised := initialised l |};
  lame_init_params := init_params;
  lame_get_totalframes := totalframes;
  lame_get_in_samplerate := in_samplerate;
  lame_get_out_samplerate := out_samplerate;
  lame_get_num_channels := num_channels;
  lame_encode_buffer_int := encode_buffer_int;
  lame_encode_flush := encode_flush;
  lame_get_lametag_frame := lametag_frame
|}.

(** The size of a rendered ID3v2 tag: a 10-byte header, and for each
    frame a 10-byte header, the encoding byte and the terminated
    strings; at least the padded size. *)
Definition frame_size (f : id3_frame) : Z :=
  11 + foldr (λ u n, Z.of_nat (length u) + 1 + n) 0 (frame_strings f).

Definition tag_size (t : id3_tag) : Z :=
  Z.max (tag_paddedsize t) (10 + foldr (λ f n, frame_size f + n) 0 (tag_frames t)).

Definition render (t : id3_tag) : list byte :=
  if tag_id3v1 t then [x54; x41; x47] ++ zero_bytes 125
  else [x49; x44; x33] ++ zero_bytes (tag_size t - 3).

(** Only the one-byte sequences of UTF-8 are decoded properly. *)
#[global] Instance id3 : Id3Lib := {|
  id3_utf8_ucs4duplicate := id3_latin1_ucs4duplicate;
  id3_tag_render := render
|}.

Definition id3_tag_new : id3_tag :=
  {| tag_frames := []; tag_compression := true; tag_id3v1 := false;
     tag_paddedsize := 0 |}.

(** A new encoder on an empty Buffer. *)
Definition encoder : Mp3Encoder :=
  {| id3tag_ := id3_tag_new; lame_encoder_ := lame_init;
     id3size_ := 0; buffer_ := [] |}.

(** A mono encoder whose stream parameters were never bound. *)
Definition unbound_mono : Mp3Encoder :=
  with_lame encoder (lame_set_num_channels lame_init 1).

Definition cbr : Mp3fsParams :=
  {| bitrate := 128; quality := 5; statcachesize := 0; vbr := 0 |}.

Definition vbr_cached : Mp3fsParams :=
  {| bitrate := 128; quality := 5; statcachesize := 500; vbr := 1 |}.

(** The spec's scenario: mono, 44100 Hz, 100000 samples. *)
Definition bound : Mp3Encoder :=
  match set_stream_params encoder 100000 44100 1 with
  | Some (_, e) => e
  | None => encoder
  end.

Definition rendered (p : Mp3fsParams) : Mp3Encoder :=
  match render_tag p bound 0 with
  | Some (_, e) => e
  | None => bound
  end.

End Reference.

(** ** The rest of the encoder *)

(** [id3_tag_new()]: a tag without frames; compression is among the
    default options, the ID3v1 option is not. *)
Definition id3_tag_new : id3_tag :=
  {| tag_frames := []; tag_compression := true; tag_id3v1 := false;
     tag_paddedsize := 0 |}.

(** [vbr_mode] of lame.h. *)
Inductive vbr_mode : Type := vbr_off | vbr_mt | vbr_rh | vbr_abr | vbr_mtrh.

(** The LAME calls of the constructor. The three callback setters take the
    logging functions of the translation unit, which the model leaves
    out. *)
Class LameSetup `{Lame} : Type := {
  lame_init : lame_t;
  lame_set_VBR : lame_t → vbr_mode → lame_t;
  lame_set_VBR_q : lame_t → Z → lame_t;
  lame_set_VBR_max_bitrate_kbps : lame_t → Z → lame_t;
  lame_set_bWriteVbrTag : lame_t → Z → lame_t;
  lame_set_quality : lame_t → Z → lame_t;
  lame_set_brate : lame_t → Z → lame_t;
  lame_set_errorf : lame_t → lame_t;
  lame_set_msgf : lame_t → lame_t;
  lame_set_debugf : lame_t → lame_t
}.

(** [Mp3Encoder::Mp3Encoder(Buffer* buffer)]. [PACKAGE_NAME] is a macro of
    the build configuration and [id3size_] is declared in [mp3_encoder.h];
    neither is among the sources, so the name and the value [id3size_]
    starts with are arguments. [buffer] is the log of the Buffer handed
    in. *)
Definition Mp3Encoder_new `{LameSetup} `{Id3Lib} (p : Mp3fsParams)
    (PACKAGE_NAME : string) (buffer : list Buffer.call) (id3size : Z)
    : option Mp3Encoder :=
  let e := {| id3tag_ := id3_tag_new; lame_encoder_ := lame_init;
              id3size_ := id3size; buffer_ := buffer |} in
  e ← set_text_tag e METATAG_ENCODER (Some PACKAGE_NAME);
  (* Set lame parameters. *)
  let l := lame_encoder_ e in
  let l :=
    if negb (vbr p =? 0) then
      let l := lame_set_VBR l vbr_mt in
      let l := lame_set_VBR_q l (quality p) in
      let l := lame_set_VBR_max_bitrate_kbps l (bitrate p) in
      lame_set_bWriteVbrTag l 1
    else
      let l := lame_set_quality l (quality p) in
      let l := lame_set_brate l (bitrate p) in
      lame_set_bWriteVbrTag l 0 in
  let l := lame_set_errorf l in
  let l := lame_set_msgf l in
  let l := lame_set_debugf l in
  Some (with_lame e l).

(** The frame a key of [set_text_tag] works on: the one [kMetatagMap]
    names, TRCK for the track number and total, TPOS for the disc number
    and total, none for any other key. *)
Definition field_frame (key : Z) : option string :=
  match kMetatagMap !! key with
  | Some name => Some name
  | None =>
      if is_number_or_total key then
        Some (if (key =? METATAG_TRACKNUMBER) || (key =? METATAG_TRACKTOTAL)
              then "TRCK"%string else "TPOS"%string)
      else None
  end.

(** No TRCK or TPOS frame is without a value: what [set_text_tag] relies
    on when it reads the first value of such a frame. *)
Definition pair_frames_filled (t : id3_tag) : Prop :=
  ∀ f : id3_frame,
    f ∈ tag_frames t →
    frame_id f = "TRCK"%string ∨ frame_id f = "TPOS"%string →
    frame_strings f ≠ [].

(** A sequence of [set_text_tag] calls, each with its key and its
    possibly null value. *)
Fixpoint set_text_tag_calls `{Lame} `{Id3Lib}
    (calls : list (Z * option string)) (e : Mp3Encoder)
    : option Mp3Encoder :=
  match calls with
  | [] => Some e
  | (key, value) :: calls =>
      e ← set_text_tag e key value;
      set_text_tag_calls calls e
  end.

(** Any number of [encode_pcm_data] calls that return, one after the
    other. *)
Inductive pcm_steps `{Lame} `{Id3Lib} : Mp3Encoder → Mp3Encoder → Prop :=
| pcm_steps_none (e : Mp3Encoder) : pcm_steps e e
| pcm_steps_more (e e1 e2 : Mp3Encoder) (data : list (list Z))
    (numsamples sample_size ret : Z) :
    encode_pcm_data e data numsamples sample_size = Some (ret, e1) →
    pcm_steps e1 e2 →
    pcm_steps e e2.

(** The size of the output vector of [encode_pcm_data],
    [5 * numsamples / 4 + kBufferSlop] in [unsigned int] arithmetic. *)
Definition vbuffer_size (numsamples : Z) : Z :=
  wrap64 (wrap32 (wrap32 (5 * numsamples) / 4 + kBufferSlop)).

(** ** The FLAC picture block ([src/codecs/picture.h])

    The members defined in the header: the constructor, the getters of
    the numeric fields and [consume_no_decode]. *)

Module Picture.

Record t : Type := {
  data_ : list byte;
  data_off_ : Z;
  type_ : Z;
  mime_type_ : string;
  description_ : string;
  picture_data_ : list byte
}.

(** [Picture(std::vector<char> data)]. *)
Definition new (data : list byte) : t :=
  {| data_ := data; data_off_ := 0; type_ := 0;
     mime_type_ := ""; description_ := ""; picture_data_ := [] |}.

(** [get_type]: the [uint32_t] type as an [int]. *)
Definition get_type (p : t) : Z := to_int (type_ p).

(** [get_data_length]: the [size_t] size of the picture data as an
    [int]. *)
Definition get_data_length (p : t) : Z :=
  to_int (Z.of_nat (length (picture_data_ p))).

(** [consume_no_decode(size)]: the offset moves on, the result is
    [true]. *)
Definition consume_no_decode (p : t) (size : Z) : bool * t :=
  (true,
   {| data_ := data_ p; data_off_ := wrap64 (data_off_ p + size);
      type_ := type_ p; mime_type_ := mime_type_ p;
      description_ := description_ p;
      picture_data_ := picture_data_ p |}).

(** [consume_no_decode] for each size in turn, as long as the calls
    return [true]. *)
Fixpoint consume_all (sizes : list Z) (p : t) : bool * t :=
  match sizes with
  | [] => (true, p)
  | size :: sizes =>
      let '(ok, p) := consume_no_decode p size in
      if ok then consume_all sizes p else (false, p)
  end.

End Picture.

(** ** A reference setup of LAME *)

Module ReferenceSetup.

(** The settings of the constructor leave the reference state alone: it
    keeps only what the size estimate and the toy codec read. *)
#[global] Instance setup : LameSetup := {|
  lame_init := Reference.lame_init;
  lame_set_VBR l _ := l;
  lame_set_VBR_q l _ := l;
  lame_set_VBR_max_bitrate_kbps l _ := l;
  lame_set_bWriteVbrTag l _ := l;
  lame_set_quality l _ := l;
  lame_set_brate l _ := l;
  lame_set_errorf l := l;
  lame_set_msgf l := l;
  lame_set_debugf l := l
|}.

(** A bound stereo encoder. *)
Definition stereo : Mp3Encoder :=
  match set_stream_params Reference.encoder 100000 44100 2 with
  | Some (_, e) => e
  | None => Reference.encoder
  end.

(** An encoder with a title and a track number. *)
Definition tagged : Mp3Encoder :=
  match set_text_tag_calls
          [(METATAG_TITLE, Some "Song"%string);
           (METATAG_TRACKNUMBER, Some "3"%string)] Reference.encoder with
  | Some e => e
  | None => Reference.encoder
  end.

(** The bound mono encoder with its tag rendered and one block of three
    samples encoded. *)
Definition encoded (p : Mp3fsParams) : Mp3Encoder :=
  match encode_pcm_data (Reference.rendered p) [[1; 2; 3]] 3 16 with
  | Some (_, e) => e
  | None => Reference.rendered p
  end.

(** The same after [encode_finish]. *)
Definition finished (p : Mp3fsParams) : Mp3Encoder :=
  (encode_finish p (encoded p)).2.

(** The bound mono encoder with the track number 3. *)
Definition numbered : Mp3Encoder :=
  match set_text_tag Reference.bound METATAG_TRACKNUMBER
          (Some "3"%string) with
  | Some e => e
  | None => Reference.bound
  end.

(** A variable bit-rate of the value of [Reference.cbr]. *)
Definition vbr_plain : Mp3fsParams :=
  {| bitrate := 128; quality := 5; statcachesize := 0; vbr := 1 |}.

End ReferenceSetup.

(** * Properties *)

(** Closed facts about the reference backend are settled by evaluation. *)
Ltac by_evaluation :=
  vm_compute; repeat split; first [ reflexivity | discriminate ].

(** ** Machine integers and byte vectors *)

Lemma wrap64_small (x : Z) : 0 ≤ x < 2 ^ 64 → wrap64 x = x.
Proof. intros Hx. unfold wrap64. apply Z.mod_small. exact Hx. Qed.

Lemma wrap64_range (x : Z) : 0 ≤ wrap64 x < 2 ^ 64.
Proof. unfold wrap64. apply Z.mod_pos_bound. lia. Qed.

Lemma to_ptrdiff_small (x : Z) : 0 ≤ x ≤ PTRDIFF_MAX → to_ptrdiff x = x.
Proof.
  unfold PTRDIFF_MAX. intros Hx. unfold to_ptrdiff.
  rewrite wrap64_small by lia.
  destruct (Z.ltb_spec x (2 ^ 63)); lia.
Qed.

(** The conversion of [size - 128] brings back the mathematical
    difference, also when the unsigned subtraction wrapped. *)
Lemma to_ptrdiff_sub (x k : Z) :
  0 ≤ x ≤ PTRDIFF_MAX → 0 ≤ k ≤ PTRDIFF_MAX →
  to_ptrdiff (wrap64 (x - k)) = x - k.
Proof.
  unfold PTRDIFF_MAX, to_ptrdiff, wrap64. intros Hx Hk.
  rewrite Z.mod_mod by lia.
  destruct (Z.le_gt_cases k x) as [Hle | Hgt].
  - rewrite Z.mod_small by lia.
    destruct (Z.ltb_spec (x - k) (2 ^ 63)); lia.
  - replace ((x - k) mod 2 ^ 64) with (x - k + 2 ^ 64).
    + destruct (Z.ltb_spec (x - k + 2 ^ 64) (2 ^ 63)); lia.
    + apply Z.mod_unique with (q := -1); lia.
Qed.

Lemma length_resize (n : Z) (v : list byte) :
  length (resize n v) = Z.to_nat n.
Proof.
  unfold resize. rewrite length_app, length_take, length_replicate. lia.
Qed.

Lemma length_resize_Z (n : Z) (v : list byte) :
  0 ≤ n → Z.of_nat (length (resize n v)) = n.
Proof. intros Hn. rewrite length_resize. lia. Qed.

(** ** The size estimate *)

Section SizeEstimate.

Context `{Lame} `{Id3Lib}.

(** What [calculate_size] returns on every state, wrap-around included. *)
Lemma calculate_size_cases (p : Mp3fsParams) (e : Mp3Encoder) :
  calculate_size p e =
    if vbr p =? 0
    then data ← mp3_data_size p e (lame_get_out_samplerate (lame_encoder_ e));
         Some (wrap64 (wrap64 (id3size_ e + kId3v1TagLength) + data))
    else data ← mp3_data_size p e (lame_get_in_samplerate (lame_encoder_ e));
         Some (wrap64 (wrap64 (wrap64 (id3size_ e + kId3v1TagLength)
                               + kMaxVbrFrameSize) + data)).
Proof. unfold calculate_size. destruct (vbr p =? 0); reflexivity. Qed.

(** Without overflow the 64-bit product and quotient are the exact ones. *)
Lemma mp3_data_size_exact (p : Mp3fsParams) (e : Mp3Encoder) (rate : Z) :
  0 ≤ lame_get_totalframes (lame_encoder_ e) →
  0 ≤ bitrate p < 2 ^ 64 → 0 < rate < 2 ^ 64 →
  lame_get_totalframes (lame_encoder_ e) * 144000 * bitrate p < 2 ^ 64 →
  mp3_data_size p e rate
  = Some (lame_get_totalframes (lame_encoder_ e) * 144000 * bitrate p / rate).
Proof.
  intros HF HB HR Hprod. unfold mp3_data_size.
  set (F := lame_get_totalframes (lame_encoder_ e)) in *.
  rewrite (wrap64_small rate) by lia.
  destruct (Z.eqb_spec rate 0) as [-> | _]; [ lia | ].
  rewrite (wrap64_small (bitrate p)) by lia.
  destruct (Z.eq_dec (bitrate p) 0) as [HB0 | HB0].
  - rewrite HB0, !Z.mul_0_r. reflexivity.
  - assert (F * 144000 < 2 ^ 64) by nia.
    assert (F < 2 ^ 64) by lia.
    rewrite (wrap64_small F) by lia.
    rewrite (wrap64_small (F * 144000)) by lia.
    rewrite (wrap64_small (F * 144000 * bitrate p)) by nia.
    reflexivity.
Qed.

(** The estimate reads the encoder's tag size and LAME state only. *)
Lemma calculate_size_ext (p : Mp3fsParams) (e1 e2 : Mp3Encoder) :
  id3size_ e1 = id3size_ e2 → lame_encoder_ e1 = lame_encoder_ e2 →
  calculate_size p e1 = calculate_size p e2.
Proof.
  intros Hs Hl. unfold calculate_size, mp3_data_size.
  rewrite Hs, Hl. reflexivity.
Qed.

(** C1, as amended. For a fixed bit-rate, [calculate_size()] is the tag
    overhead (the rendered ID3v2 size plus the 128 bytes of the ID3v1 tag)
    plus F * 144000 * B / output_sample_rate with exact integer division,
    where F is the number of frames LAME reports
    ([lame_get_totalframes]) and not the number of source samples; the
    size [getattr] answers with before encoding starts is this value. *)
Theorem calculate_size_fixed (p : Mp3fsParams) (e : Mp3Encoder) :
  vbr p = 0 →
  0 ≤ id3size_ e →
  0 ≤ lame_get_totalframes (lame_encoder_ e) →
  0 ≤ bitrate p < 2 ^ 64 →
  0 < lame_get_out_samplerate (lame_encoder_ e) < 2 ^ 64 →
  lame_get_totalframes (lame_encoder_ e) * 144000 * bitrate p < 2 ^ 64 →
  id3size_ e + kId3v1TagLength
  + lame_get_totalframes (lame_encoder_ e) * 144000 * bitrate p
    / lame_get_out_samplerate (lame_encoder_ e) < 2 ^ 64 →
  calculate_size p e
  = Some (id3size_ e + kId3v1TagLength
          + lame_get_totalframes (lame_encoder_ e) * 144000 * bitrate p
            / lame_get_out_samplerate (lame_encoder_ e))
  ∧ getattr_size_before_encoding p e = calculate_size p e.
Proof.
  intros Hvbr Hid HF HB HR Hprod Hsum. split; [ | reflexivity ].
  rewrite calculate_size_cases, Hvbr. simpl.
  rewrite mp3_data_size_exact by assumption. simpl.
  set (q := _ / _) in *.
  assert (0 ≤ q) by (apply Z.div_pos; nia).
  unfold kId3v1TagLength in *.
  rewrite (wrap64_small (id3size_ e + 128)) by lia.
  rewrite wrap64_small by lia. reflexivity.
Qed.

(** C2, as amended. For a variable bit-rate, [calculate_size()] is the tag
    overhead plus the slack constant [kMaxVbrFrameSize] plus
    F * 144000 * B / input_sample_rate, where F is the number of frames
    LAME reports and not the number of source samples; the divisor is the
    input sample rate. *)
Theorem calculate_size_vbr (p : Mp3fsParams) (e : Mp3Encoder) :
  vbr p ≠ 0 →
  0 ≤ id3size_ e →
  0 ≤ lame_get_totalframes (lame_encoder_ e) →
  0 ≤ bitrate p < 2 ^ 64 →
  0 < lame_get_in_samplerate (lame_encoder_ e) < 2 ^ 64 →
  lame_get_totalframes (lame_encoder_ e) * 144000 * bitrate p < 2 ^ 64 →
  id3size_ e + kId3v1TagLength + kMaxVbrFrameSize
  + lame_get_totalframes (lame_encoder_ e) * 144000 * bitrate p
    / lame_get_in_samplerate (lame_encoder_ e) < 2 ^ 64 →
  calculate_size p e
  = Some (id3size_ e + kId3v1TagLength + kMaxVbrFrameSize
          + lame_get_totalframes (lame_encoder_ e) * 144000 * bitrate p
            / lame_get_in_samplerate (lame_encoder_ e)).
Proof.
  intros Hvbr Hid HF HB HR Hprod Hsum.
  rewrite calculate_size_cases.
  destruct (Z.eqb_spec (vbr p) 0) as [ | _ ]; [ contradiction | ].
  rewrite mp3_data_size_exact by assumption. simpl.
  set (q := _ / _) in *.
  assert (0 ≤ q) by (apply Z.div_pos; nia).
  unfold kId3v1TagLength, kMaxVbrFrameSize in *.
  rewrite (wrap64_small (id3size_ e + 128)) by lia.
  rewrite (wrap64_small (id3size_ e + 128 + 2880)) by lia.
  rewrite wrap64_small by lia. reflexivity.
Qed.

(** Scaling by at least 1 and rounding down keeps distinct counts
    apart. *)
Lemma scaled_quotient_inj (a b k r : Z) :
  0 < r ≤ k → 0 ≤ a → 0 ≤ b → a * k / r = b * k / r → a = b.
Proof.
  intros Hr Ha Hb Heq.
  assert (Hstep : ∀ x y, 0 ≤ x < y → x * k / r + 1 ≤ y * k / r).
  { intros x y Hxy. rewrite <- (Z.div_add (x * k) 1 r) by lia.
    apply Z.div_le_mono; nia. }
  destruct (Z.lt_trichotomy a b) as [Hlt | [Hab | Hgt]]; [ | exact Hab | ].
  - pose proof (Hstep a b). lia.
  - pose proof (Hstep b a). lia.
Qed.

(** On any backend, once a frame takes at least one byte, the spec's
    formula with the sample count N agrees with [calculate_size()] only
    when LAME reports exactly N frames. *)
Lemma spec_fixed_size_only_for_equal_counts (p : Mp3fsParams)
    (e : Mp3Encoder) (N : Z) :
  vbr p = 0 → 0 ≤ N →
  0 ≤ lame_get_totalframes (lame_encoder_ e) →
  0 ≤ bitrate p < 2 ^ 64 →
  0 < lame_get_out_samplerate (lame_encoder_ e) < 2 ^ 64 →
  lame_get_out_samplerate (lame_encoder_ e) ≤ 144000 * bitrate p →
  lame_get_totalframes (lame_encoder_ e) * 144000 * bitrate p < 2 ^ 64 →
  0 ≤ id3size_ e →
  id3size_ e + kId3v1TagLength
  + lame_get_totalframes (lame_encoder_ e) * 144000 * bitrate p
    / lame_get_out_samplerate (lame_encoder_ e) < 2 ^ 64 →
  calculate_size p e = Some (spec_fixed_size p e N) →
  lame_get_totalframes (lame_encoder_ e) = N.
Proof.
  intros Hvbr HN HF HB HR Hbyte Hprod Hid Hsum Hspec.
  rewrite calculate_size_cases, Hvbr in Hspec. simpl in Hspec.
  rewrite mp3_data_size_exact in Hspec by assumption. simpl in Hspec.
  unfold spec_fixed_size in Hspec.
  set (F := lame_get_totalframes (lame_encoder_ e)) in *.
  set (R := lame_get_out_samplerate (lame_encoder_ e)) in *.
  assert (0 ≤ F * 144000 * bitrate p / R) by (apply Z.div_pos; nia).
  unfold kId3v1TagLength in *.
  rewrite (wrap64_small (id3size_ e + 128)) in Hspec by lia.
  rewrite wrap64_small in Hspec by lia.
  injection Hspec as Hspec.
  apply (scaled_quotient_inj F N (144000 * bitrate p) R); try lia.
  rewrite !Z.mul_assoc. lia.
Qed.

End SizeEstimate.

(** C1 on the spec's own scenario (mono, 44100 Hz, 100000 samples, 128
    kbps): the encoder was bound to 100000 samples, the backend reports 87
    frames, and [calculate_size()] is 128 + 87 * 144000 * 128 / 44100,
    not 128 + 100000 * 144000 * 128 / 44100. *)
Lemma spec_fixed_size_refuted :
  vbr Reference.cbr = 0
  ∧ Reference.num_samples (lame_encoder_ Reference.bound) = 100000
  ∧ lame_get_totalframes (lame_encoder_ Reference.bound) = 87
  ∧ calculate_size Reference.cbr Reference.bound = Some 36490
  ∧ spec_fixed_size Reference.cbr Reference.bound 100000 = 41796046
  ∧ calculate_size Reference.cbr Reference.bound
    ≠ Some (spec_fixed_size Reference.cbr Reference.bound 100000).
Proof. by_evaluation. Qed.

Lemma calculate_size_fixed_witness :
  calculate_size Reference.cbr Reference.bound
  = Some (0 + 128 + 87 * 144000 * 128 / 44100)
  ∧ getattr_size_before_encoding Reference.cbr Reference.bound
    = calculate_size Reference.cbr Reference.bound.
Proof.
  apply (calculate_size_fixed Reference.cbr Reference.bound); by_evaluation.
Defined.

(** C2 on the same stream with a variable bit-rate: 128 + 2880 +
    87 * 144000 * 128 / 44100, not the value for 100000 in place of 87. *)
Lemma spec_vbr_size_refuted :
  vbr Reference.vbr_cached ≠ 0
  ∧ Reference.num_samples (lame_encoder_ Reference.bound) = 100000
  ∧ lame_get_totalframes (lame_encoder_ Reference.bound) = 87
  ∧ calculate_size Reference.vbr_cached Reference.bound = Some 39370
  ∧ spec_vbr_size Reference.vbr_cached Reference.bound 100000 = 41798926
  ∧ calculate_size Reference.vbr_cached Reference.bound
    ≠ Some (spec_vbr_size Reference.vbr_cached Reference.bound 100000).
Proof. by_evaluation. Qed.

Lemma calculate_size_vbr_witness :
  calculate_size Reference.vbr_cached Reference.bound
  = Some (0 + 128 + 2880 + 87 * 144000 * 128 / 44100).
Proof.
  apply (calculate_size_vbr Reference.vbr_cached Reference.bound);
    by_evaluation.
Defined.

(** ** The rendered tags *)

Section RenderTag.

Context `{Lame} `{Id3Lib}.

(** [render_tag] appends the ID3v2 rendering of the padded tag and keeps
    its size in [id3size_]. *)
Lemma render_tag_sets_id3size (p : Mp3fsParams) (e e' : Mp3Encoder)
    (file_size ret : Z) :
  render_tag p e file_size = Some (ret, e') →
  ret = 0
  ∧ ∃ (tag24 : list byte) (c : Buffer.call),
      tag24
      = id3_tag_render
          (id3_tag_setlength (clear_compression (id3tag_ e))
             (wrap64
                (Z.of_nat
                   (length (id3_tag_render (clear_compression (id3tag_ e))))
                 + 12)))
      ∧ buffer_ e' = buffer_ e ++ [Buffer.write tag24 true; c]
      ∧ id3size_ e' = Z.of_nat (length tag24).
Proof.
  unfold render_tag. intros Hrun.
  destruct (if file_size =? 0 then _ else _) as [fs | ]; simpl in Hrun;
    [ | discriminate ].
  injection Hrun as <- <-. split; [ reflexivity | ].
  eexists. eexists. split; [ reflexivity | ].
  simpl. rewrite <- app_assoc. simpl.
  split; reflexivity.
Qed.

(** C3. [render_tag] renders the ID3v1 tag from the encoder's tag with the
    ID3v1 option on, into a vector of 128 bytes, and hands that vector to
    [write_end] at the offset [size - 128], where [size] is the given
    file size or, when 0 is given, [calculate_size()]: the ID3v1 tag
    fills exactly the last 128 bytes of a file of that size. The call
    before it appends the ID3v2 rendering of the padded tag. *)
Theorem render_tag_id3v1_at_end (p : Mp3fsParams) (e e' : Mp3Encoder)
    (file_size size ret : Z) :
  0 ≤ file_size < 2 ^ 64 →
  render_tag p e file_size = Some (ret, e') →
  final_size p e' file_size = Some size →
  size ≤ PTRDIFF_MAX →
  ∃ padded : id3_tag,
    padded
    = id3_tag_setlength (clear_compression (id3tag_ e))
        (wrap64
           (Z.of_nat
              (length (id3_tag_render (clear_compression (id3tag_ e))))
            + 12))
    ∧ id3tag_ e' = set_id3v1 padded
    ∧ buffer_ e'
      = buffer_ e
        ++ [Buffer.write (id3_tag_render padded) true;
            Buffer.write_end
              (filled kId3v1TagLength (id3_tag_render (id3tag_ e')))
              (size - 128)]
    ∧ Z.of_nat
        (length (filled kId3v1TagLength (id3_tag_render (id3tag_ e'))))
      = 128
    ∧ size - 128
      + Z.of_nat
          (length (filled kId3v1TagLength (id3_tag_render (id3tag_ e'))))
      = size.
Proof.
  intros Hfs Hrun Hsize Hmax. unfold render_tag in Hrun.
  set (t1 := id3_tag_setlength _ _) in Hrun.
  set (e1 := buffer_call _ (Buffer.write (id3_tag_render t1) true)) in Hrun.
  set (e2 := with_id3tag e1 (set_id3v1 t1)) in Hrun.
  set (tag1 := filled kId3v1TagLength _) in Hrun.
  assert (Hfinal : final_size p e' file_size
                   = if file_size =? 0 then calculate_size p e2
                     else Some file_size).
  { unfold final_size. destruct (file_size =? 0); [ | reflexivity ].
    destruct (calculate_size p e2) as [fs | ] eqn:Hcs; simpl in Hrun;
      [ | discriminate ].
    injection Hrun as _ <-. rewrite <- Hcs.
    apply calculate_size_ext; reflexivity. }
  rewrite Hfinal in Hsize. rewrite Hsize in Hrun. simpl in Hrun.
  injection Hrun as _ <-.
  assert (Hlen : Z.of_nat (length tag1) = 128).
  { subst tag1. unfold filled. apply length_resize_Z.
    unfold kId3v1TagLength. lia. }
  assert (Hpos : 0 ≤ size).
  { destruct (file_size =? 0).
    - unfold calculate_size in Hsize.
      destruct (negb (vbr p =? 0));
        destruct (mp3_data_size p e2 _); simpl in Hsize;
        try discriminate; injection Hsize as <-;
        apply wrap64_range.
    - injection Hsize as <-. lia. }
  exists t1. split; [ reflexivity | ]. split; [ reflexivity | ].
  repeat match goal with
         | |- context [ filled kId3v1TagLength ?x ] =>
             change (filled kId3v1TagLength x) with tag1
         end.
  split; [ | split; [ exact Hlen | lia ] ].
  subst e2 e1. cbn [buffer_ buffer_call with_id3tag with_id3size].
  rewrite <- app_assoc. cbn [app].
  rewrite to_ptrdiff_sub; [ reflexivity | lia | ].
  unfold kId3v1TagLength, PTRDIFF_MAX. lia.
Qed.

End RenderTag.

Lemma render_tag_id3v1_at_end_witness :
  ∃ padded : id3_tag,
    padded
    = id3_tag_setlength (clear_compression (id3tag_ Reference.bound))
        (wrap64
           (Z.of_nat
              (length
                 (id3_tag_render
                    (clear_compression (id3tag_ Reference.bound))))
            + 12))
    ∧ id3tag_ (Reference.rendered Reference.cbr) = set_id3v1 padded
    ∧ buffer_ (Reference.rendered Reference.cbr)
      = buffer_ Reference.bound
        ++ [Buffer.write (id3_tag_render padded) true;
            Buffer.write_end
              (filled kId3v1TagLength
                 (id3_tag_render
                    (id3tag_ (Reference.rendered Reference.cbr))))
              (36528 - 128)]
    ∧ Z.of_nat
        (length
           (filled kId3v1TagLength
              (id3_tag_render (id3tag_ (Reference.rendered Reference.cbr)))))
      = 128
    ∧ 36528 - 128
      + Z.of_nat
          (length
             (filled kId3v1TagLength
                (id3_tag_render
                   (id3tag_ (Reference.rendered Reference.cbr)))))
      = 36528.
Proof.
  apply (render_tag_id3v1_at_end Reference.cbr Reference.bound
           (Reference.rendered Reference.cbr) 0 36528 0); by_evaluation.
Defined.

(** ** Finishing the encoding *)

Section Finish.

Context `{Lame} `{Id3Lib}.

(** On any Buffer that keeps its promises, an append followed by
    [truncate()] or [extend()] leaves the bytes appended before alone. *)
Lemma replay_append_then_fix `{Buffer.Ops B} (v : list byte) (x : bool)
    (fix_call : Buffer.call) (b : B) (i : Z) :
  Buffer.Laws B →
  fix_call = Buffer.truncate ∨ fix_call = Buffer.extend →
  0 ≤ i < Buffer.tell b →
  Buffer.byte_at (Buffer.replay [Buffer.write v x; fix_call] b) i
  = Buffer.byte_at b i.
Proof.
  intros Hlaws Hfix Hi. simpl.
  pose proof (Buffer.tell_write Hlaws v x b) as Htell.
  rewrite <- (Buffer.byte_at_write Hlaws v x b i Hi).
  destruct Hfix as [-> | ->]; simpl.
  - apply (Buffer.byte_at_truncate Hlaws). lia.
  - apply (Buffer.byte_at_extend Hlaws). lia.
Qed.

(** When the flush fails nothing is written. *)
Lemma encode_finish_failed_flush (p : Mp3fsParams) (e : Mp3Encoder)
    (len : Z) (out : list byte) (l : lame_t) :
  lame_encode_flush (lame_encoder_ e) (to_int kBufferSlop) = (len, out, l) →
  len < 0 →
  encode_finish p e = (-1, with_lame e l).
Proof.
  intros Hflush Hlen. unfold encode_finish. rewrite Hflush.
  destruct (Z.ltb_spec len 0); [ reflexivity | lia ].
Qed.

(** C5. Once the flush has succeeded, [encode_finish] appends the flushed
    bytes and then calls exactly one of [truncate()] and [extend()]:
    [truncate()] when [params.statcachesize > 0], [extend()] otherwise.
    Nothing but the configuration enters the choice. *)
Theorem encode_finish_truncate_or_extend (p : Mp3fsParams) (e : Mp3Encoder)
    (len : Z) (out : list byte) (l : lame_t) :
  lame_encode_flush (lame_encoder_ e) (to_int kBufferSlop) = (len, out, l) →
  0 ≤ len →
  ∃ (vbuffer : list byte) (rest : list Buffer.call),
    buffer_ (encode_finish p e).2
    = buffer_ e
      ++ Buffer.write vbuffer (0 <? statcachesize p)
         :: (if 0 <? statcachesize p then Buffer.truncate else Buffer.extend)
         :: rest
    ∧ vbuffer = resize len (filled kBufferSlop out)
    ∧ Z.of_nat (length vbuffer) = len
    ∧ ∀ c, c ∈ rest → Buffer.is_truncate_or_extend c = false.
Proof.
  intros Hflush Hlen. unfold encode_finish. rewrite Hflush.
  destruct (Z.ltb_spec len 0) as [ | _ ]; [ lia | ].
  exists (resize len (filled kBufferSlop out)).
  destruct (0 <? statcachesize p), (negb (vbr p =? 0)); simpl;
    try destruct (lame_get_lametag_frame l kMaxVbrFrameSize) as [sz written];
    try destruct (kMaxVbrFrameSize <? wrap64 sz); simpl.
  all: eexists; repeat rewrite <- app_assoc; simpl.
  all: split; [ reflexivity | ].
  all: split; [ reflexivity | split; [ apply length_resize_Z; lia | ] ].
  all: intros c Hc.
  all: repeat match goal with
         | Hc : _ ∈ [] |- _ => apply elem_of_nil in Hc; contradiction
         | Hc : _ ∈ _ :: _ |- _ =>
             apply elem_of_cons in Hc; destruct Hc as [-> | Hc];
             [ reflexivity | ]
         end.
Qed.

(** C4. [encode_finish] patches the variable-bit-rate summary block, the
    bytes [lame_get_lametag_frame] wrote into a vector of
    [kMaxVbrFrameSize] bytes, with one [write_to] at the absolute offset
    [id3size_], the size of the rendered ID3v2 tag. A [write_to] is
    issued only when a variable bit-rate is configured; in that mode the
    finish succeeds exactly when the flush succeeds and the block fits,
    and then its calls are the append, the [truncate()] or [extend()]
    and this patch; a finish that fails patches nothing. With a fixed bit-rate the calls are the append and
    the [truncate()] or [extend()]: no call addresses an offset, and on
    any Buffer that keeps its promises the bytes at the offsets 0 up to
    [id3size_] are as before. *)
Theorem encode_finish_vbr_patch (p : Mp3fsParams) (e e' : Mp3Encoder)
    (ret len sz : Z) (out written : list byte) (l : lame_t) :
  0 ≤ id3size_ e ≤ PTRDIFF_MAX →
  lame_encode_flush (lame_encoder_ e) (to_int kBufferSlop) = (len, out, l) →
  lame_get_lametag_frame l kMaxVbrFrameSize = (sz, written) →
  encode_finish p e = (ret, e') →
  ∃ calls : list Buffer.call,
    buffer_ e' = buffer_ e ++ calls
    ∧ ((∃ c, c ∈ calls ∧ Buffer.is_write_to c = true) → vbr p ≠ 0)
    ∧ (vbr p ≠ 0 →
       (0 ≤ ret ↔ 0 ≤ len ∧ wrap64 sz ≤ kMaxVbrFrameSize))
    ∧ (vbr p ≠ 0 → 0 ≤ ret →
       ret = len
       ∧ calls
         = [Buffer.write (resize len (filled kBufferSlop out))
              (0 <? statcachesize p);
            (if 0 <? statcachesize p
             then Buffer.truncate else Buffer.extend);
            Buffer.write_to (filled kMaxVbrFrameSize written) (id3size_ e)]
       ∧ Z.of_nat (length (filled kMaxVbrFrameSize written))
         = kMaxVbrFrameSize)
    ∧ (vbr p ≠ 0 → ret < 0 →
       ∀ c, c ∈ calls → Buffer.is_write_to c = false)
    ∧ (vbr p = 0 →
       (0 ≤ len →
        ret = len
        ∧ calls
          = [Buffer.write (resize len (filled kBufferSlop out))
               (0 <? statcachesize p);
             (if 0 <? statcachesize p
              then Buffer.truncate else Buffer.extend)])
       ∧ (∀ c, c ∈ calls →
            Buffer.is_write_to c = false ∧ Buffer.is_write_end c = false)
       ∧ ∀ (B : Type) (ops : Buffer.Ops B), Buffer.Laws B →
         ∀ (b : B) (i : Z),
           0 ≤ i < id3size_ e → id3size_ e ≤ Buffer.tell b →
           Buffer.byte_at (Buffer.replay calls b) i = Buffer.byte_at b i).
Proof.
  intros Hid Hflush Htag Hrun. unfold encode_finish in Hrun.
  rewrite Hflush in Hrun.
  destruct (Z.ltb_spec len 0) as [Hneg | Hlen].
  { (* the flush failed: no call at all *)
    injection Hrun as <- <-. exists []. cbn [buffer_ with_lame].
    rewrite app_nil_r. split; [ reflexivity | ].
    split; [ intros (c & Hc & _); apply elem_of_nil in Hc; contradiction | ].
    split; [ intros _; split; [ intros ?; lia | intros [? _]; lia ] | ].
    split; [ intros _ Hret; lia | ].
    split; [ intros _ _ c Hc; apply elem_of_nil in Hc; contradiction | ].
    intros _. split; [ intros ?; lia | ]. split; [ | reflexivity ].
    intros c Hc. apply elem_of_nil in Hc. contradiction. }
  set (vbuffer := resize len (filled kBufferSlop out)) in *.
  set (fix_call := if 0 <? statcachesize p
                   then Buffer.truncate else Buffer.extend).
  assert (Hfix : fix_call = Buffer.truncate ∨ fix_call = Buffer.extend).
  { subst fix_call. destruct (0 <? statcachesize p); auto. }
  set (front := [Buffer.write vbuffer (0 <? statcachesize p); fix_call]).
  assert (Hfront : ∀ c, c ∈ front →
            Buffer.is_write_to c = false ∧ Buffer.is_write_end c = false).
  { intros c Hc. subst front.
    apply elem_of_cons in Hc. destruct Hc as [-> | Hc]; [ split; reflexivity | ].
    apply elem_of_cons in Hc. destruct Hc as [-> | Hc].
    - destruct Hfix as [-> | ->]; split; reflexivity.
    - apply elem_of_nil in Hc. contradiction. }
  set (e1 := if 0 <? statcachesize p then _ else _) in Hrun.
  assert (He1 : lame_encoder_ e1 = l ∧ id3size_ e1 = id3size_ e
                ∧ buffer_ e1 = buffer_ e ++ front).
  { subst e1 front fix_call. destruct (0 <? statcachesize p);
      (split; [ reflexivity | split; [ reflexivity | ] ]);
      cbn [buffer_ buffer_call with_lame];
      rewrite <- app_assoc; reflexivity. }
  destruct He1 as (Hl & Hs & Hb).
  destruct (Z.eqb_spec (vbr p) 0) as [Hcbr | Hvbr]; cbn [negb] in Hrun.
  - (* fixed bit-rate *)
    injection Hrun as <- <-. exists front. split; [ exact Hb | ].
    split.
    { intros (c & Hc & Hpatch). apply Hfront in Hc as [Hc _]. congruence. }
    split; [ intros Hv; contradiction | ].
    split; [ intros Hv; contradiction | ].
    split; [ intros Hv; contradiction | ].
    intros _. split; [ intros _; split; reflexivity | ].
    split; [ exact Hfront | ].
    intros B ops Hlaws b i Hi Htell. subst front.
    apply replay_append_then_fix; [ exact Hlaws | exact Hfix | lia ].
  - (* variable bit-rate *)
    rewrite Hl, Htag in Hrun.
    set (tail := filled kMaxVbrFrameSize written) in *.
    assert (Htail : Z.of_nat (length tail) = kMaxVbrFrameSize).
    { subst tail. unfold filled. apply length_resize_Z.
      unfold kMaxVbrFrameSize. lia. }
    destruct (Z.ltb_spec kMaxVbrFrameSize (wrap64 sz)) as [Hbig | Hfits].
    + (* the summary block does not fit: the finish fails *)
      injection Hrun as <- <-. exists front. split; [ exact Hb | ].
      split; [ intros _; exact Hvbr | ].
      split; [ intros _; split; [ intros ?; lia | intros [_ ?]; lia ] | ].
      split; [ intros _ Hret; lia | ].
      split; [ | intros Hv; contradiction ].
      intros _ _ c Hc. apply Hfront in Hc as [Hc _]. exact Hc.
    + injection Hrun as <- <-.
      exists (front ++ [Buffer.write_to tail (id3size_ e)]). split.
      { cbn [buffer_ buffer_call]. rewrite Hb, Hs.
        rewrite to_ptrdiff_small by exact Hid.
        rewrite <- app_assoc. reflexivity. }
      split; [ intros _; exact Hvbr | ].
      split; [ intros _; split; [ intros _; lia | intros _; lia ] | ].
      split; [ | split; [ intros _ Hret; lia | intros Hv; contradiction ] ].
      intros _ _. split; [ reflexivity | ].
      split; [ reflexivity | exact Htail ].
Qed.

End Finish.

Lemma encode_finish_truncate_or_extend_witness :
  ∃ (vbuffer : list byte) (rest : list Buffer.call),
    buffer_ (encode_finish Reference.vbr_cached
               (Reference.rendered Reference.vbr_cached)).2
    = buffer_ (Reference.rendered Reference.vbr_cached)
      ++ Buffer.write vbuffer true :: Buffer.truncate :: rest
    ∧ vbuffer = resize 4 (filled kBufferSlop [xff; xfb; x90; x00])
    ∧ Z.of_nat (length vbuffer) = 4
    ∧ ∀ c, c ∈ rest → Buffer.is_truncate_or_extend c = false.
Proof.
  apply (encode_finish_truncate_or_extend Reference.vbr_cached
           (Reference.rendered Reference.vbr_cached)
           4 [xff; xfb; x90; x00]
           (lame_encoder_ (Reference.rendered Reference.vbr_cached)));
    by_evaluation.
Defined.

(** The reference Buffer keeps the promises of the interface. *)
Lemma simple_buffer_laws : Buffer.Laws Buffer.Simple.
Proof.
  split; simpl.
  - intros d x b. rewrite length_app. lia.
  - intros d x b i Hi. unfold Buffer.simple_byte_at. simpl.
    rewrite length_app.
    destruct (Z.ltb_spec i 0); [ lia | ].
    destruct (Z.ltb_spec i (Z.of_nat (length (Buffer.main_data b)))); [ | lia ].
    destruct (Z.ltb_spec i (Z.of_nat (length (Buffer.main_data b) + length d)));
      [ | lia ].
    apply lookup_app_l. lia.
  - intros b i Hi. unfold Buffer.simple_byte_at. simpl.
    destruct (Z.ltb_spec i 0); [ lia | ].
    destruct (Z.ltb_spec i (Z.of_nat (length (Buffer.main_data b))));
      [ reflexivity | lia ].
  - intros b i Hi. unfold Buffer.simple_byte_at. simpl.
    rewrite length_app.
    destruct (Z.ltb_spec i 0); [ lia | ].
    destruct (Z.ltb_spec i (Z.of_nat (length (Buffer.main_data b)))); [ | lia ].
    match goal with |- context [ (i <? ?n) ] => destruct (Z.ltb_spec i n) end;
      [ | lia ].
    apply lookup_app_l. lia.
Qed.

Lemma replay_app `{Buffer.Ops B} (l1 l2 : list Buffer.call) (b : B) :
  Buffer.replay (l1 ++ l2) b = Buffer.replay l2 (Buffer.replay l1 b).
Proof. unfold Buffer.replay. apply foldl_app. Qed.

(** With a variable bit-rate the reference run ends in the patch of
    LAME's block at offset 38 = [id3size_]; with a fixed bit-rate the
    first byte of the tag is the same before and after the finish. *)
Lemma encode_finish_vbr_patch_witness :
  buffer_ (encode_finish Reference.vbr_cached
             (Reference.rendered Reference.vbr_cached)).2
  = buffer_ (Reference.rendered Reference.vbr_cached)
    ++ [Buffer.write
          (resize 4 (filled kBufferSlop [xff; xfb; x90; x00])) true;
        Buffer.truncate;
        Buffer.write_to
          (filled kMaxVbrFrameSize
             [x58; x69; x6e; x67; x00; x00; x00; x0f]) 38]
  ∧ Buffer.byte_at
      (Buffer.replay
         (buffer_ (encode_finish Reference.cbr
                     (Reference.rendered Reference.cbr)).2)
         Buffer.empty) 0
    = Buffer.byte_at
        (Buffer.replay (buffer_ (Reference.rendered Reference.cbr))
           Buffer.empty) 0.
Proof.
  split.
  - destruct (encode_finish_vbr_patch Reference.vbr_cached
                (Reference.rendered Reference.vbr_cached)
                (encode_finish Reference.vbr_cached
                   (Reference.rendered Reference.vbr_cached)).2
                4 4 8 [xff; xfb; x90; x00]
                [x58; x69; x6e; x67; x00; x00; x00; x0f]
                (lame_encoder_ (Reference.rendered Reference.vbr_cached)))
      as (calls & Hlog & _ & _ & Hvbr & _);
      [ by_evaluation | by_evaluation | by_evaluation | by_evaluation | ].
    destruct Hvbr as (_ & Hcalls & _); [ by_evaluation | by_evaluation | ].
    rewrite Hlog, Hcalls. reflexivity.
  - destruct (encode_finish_vbr_patch Reference.cbr
                (Reference.rendered Reference.cbr)
                (encode_finish Reference.cbr
                   (Reference.rendered Reference.cbr)).2
                4 4 8 [xff; xfb; x90; x00]
                [x58; x69; x6e; x67; x00; x00; x00; x0f]
                (lame_encoder_ (Reference.rendered Reference.cbr)))
      as (calls & Hlog & _ & _ & _ & _ & Hcbr);
      [ by_evaluation | by_evaluation | by_evaluation | by_evaluation | ].
    destruct Hcbr as (_ & _ & Hframe); [ by_evaluation | ].
    rewrite Hlog, replay_app.
    apply (Hframe Buffer.Simple _ simple_buffer_laws); by_evaluation.
Defined.

(** ** The tag set *)

Lemma latin1_roundtrip (s : string) :
  id3_ucs4_latin1duplicate (id3_latin1_ucs4duplicate s) = s.
Proof.
  unfold id3_ucs4_latin1duplicate, id3_latin1_ucs4duplicate,
    list_to_string, string_to_list.
  rewrite <- list_fmap_compose.
  rewrite <- (String.string_of_list_ascii_of_string s) at 2.
  f_equal. induction (String.list_ascii_of_string s) as [ | a l IH ];
    [ reflexivity | ].
  rewrite fmap_cons, IH. f_equal.
  unfold compose, id3_latin1_encodechar.
  pose proof (Ascii.N_ascii_bounded a) as Hb.
  destruct (N.leb_spec (Ascii.N_of_ascii a) 255); [ | lia ].
  apply Ascii.ascii_N_embedding.
Qed.

Section Frames.

Context (name : string).

Lemma find_alter (g : id3_frame → id3_frame) (l : list id3_frame)
    (i : nat) (f : id3_frame) :
  (∀ x, frame_id (g x) = frame_id x) →
  list_find (has_id name) l = Some (i, f) →
  list_find (has_id name) (alter g i l) = Some (i, g f).
Proof.
  intros Hg Hfind. apply list_find_Some in Hfind as (Hi & Hf & Hbefore).
  apply list_find_Some. split; [ | split ].
  - rewrite list_lookup_alter_eq, Hi. reflexivity.
  - unfold has_id in *. rewrite Hg. exact Hf.
  - intros j y Hj Hlt. rewrite list_lookup_alter_ne in Hj by lia.
    eauto.
Qed.

Lemma find_snoc (l : list id3_frame) (f : id3_frame) :
  list_find (has_id name) l = None → frame_id f = name →
  list_find (has_id name) (l ++ [f]) = Some (length l, f).
Proof.
  intros Hnone Hf. rewrite list_find_app_r by exact Hnone. simpl.
  rewrite decide_True by exact Hf. reflexivity.
Qed.

Lemma alter_snoc (g : id3_frame → id3_frame) (l : list id3_frame)
    (f : id3_frame) :
  alter g (length l) (l ++ [f]) = l ++ [g f].
Proof.
  rewrite alter_app_r_alt by lia. rewrite Nat.sub_diag. reflexivity.
Qed.

Lemma filter_alter (g : id3_frame → id3_frame) (l : list id3_frame)
    (i : nat) :
  (∀ x, frame_id (g x) = frame_id x) →
  length (filter (has_id name) (alter g i l))
  = length (filter (has_id name) l).
Proof.
  intros Hg. revert i. induction l as [ | x l IH ]; intros i;
    [ reflexivity | ].
  destruct i as [ | i ].
  - change (alter g 0%nat (x :: l)) with (g x :: l).
    rewrite !filter_cons.
    destruct (decide (has_id name (g x))) as [Hgx | Hgx],
      (decide (has_id name x)) as [Hx | Hx];
      unfold has_id in Hgx, Hx; rewrite Hg in Hgx;
      first [ reflexivity | contradiction ].
  - change (alter g (S i) (x :: l)) with (x :: alter g i l).
    rewrite !filter_cons. destruct (decide (has_id name x)); simpl;
      rewrite IH; reflexivity.
Qed.

Lemma filter_not_found (l : list id3_frame) :
  list_find (has_id name) l = None → filter (has_id name) l = [].
Proof.
  intros Hnone. apply list_find_None in Hnone.
  induction Hnone as [ | x l Hx _ IH ]; [ reflexivity | ].
  rewrite filter_cons_False by exact Hx. exact IH.
Qed.

Lemma filter_found (l : list id3_frame) (i : nat) (f : id3_frame) :
  list_find (has_id name) l = Some (i, f) →
  (0 < length (filter (has_id name) l))%nat.
Proof.
  intros Hfind. apply list_find_Some in Hfind as (Hi & Hf & _).
  apply list_elem_of_lookup_2 in Hi.
  assert (Hin : f ∈ filter (has_id name) l)
    by (apply list_elem_of_filter; split; assumption).
  destruct (filter (has_id name) l); [ | simpl; lia ].
  apply elem_of_nil in Hin. contradiction.
Qed.

End Frames.

Section TagSet.

Context `{Lame} `{Id3Lib}.

(** One call with a key of [kMetatagMap]: the value joins the values of
    the field's first frame, which is created if the tag had none. *)
Lemma set_text_tag_mapped (e : Mp3Encoder) (key : Z) (name value : string) :
  kMetatagMap !! key = Some name →
  ∃ e' : Mp3Encoder,
    set_text_tag e key (Some value) = Some e'
    ∧ text_values name e'
      = text_values name e ++ [id3_utf8_ucs4duplicate value]
    ∧ count_frames name e' = Nat.max 1 (count_frames name e)
    ∧ lame_encoder_ e' = lame_encoder_ e
    ∧ id3size_ e' = id3size_ e
    ∧ buffer_ e' = buffer_ e.
Proof.
  intros Hkey. unfold set_text_tag. rewrite Hkey.
  unfold text_values, count_frames, id3_tag_findframe.
  destruct (list_find (has_id name) (tag_frames (id3tag_ e)))
    as [[i f] | ] eqn:Hfind.
  - eexists. split; [ reflexivity | ]. simpl.
    rewrite (find_alter name _ _ i f) by (reflexivity || exact Hfind).
    rewrite filter_alter by reflexivity.
    pose proof (filter_found name _ i f Hfind).
    repeat split. lia.
  - eexists. split; [ reflexivity | ]. simpl.
    rewrite alter_snoc.
    rewrite find_snoc by (reflexivity || exact Hfind).
    rewrite filter_app, (filter_not_found name _ Hfind). simpl.
    rewrite filter_cons_True by reflexivity.
    repeat split.
Qed.

(** C8. Calling [set_text_tag] several times with one key of
    [kMetatagMap] and non-null values leaves all the values, in the order
    given, after those the field's frame already had; the values go to one
    frame, none is created beyond the first. *)
Theorem set_text_tag_accumulates (e : Mp3Encoder) (key : Z) (name : string)
    (values : list string) :
  kMetatagMap !! key = Some name →
  ∃ e' : Mp3Encoder,
    set_text_tags key values e = Some e'
    ∧ text_values name e'
      = text_values name e ++ (id3_utf8_ucs4duplicate <$> values)
    ∧ count_frames name e'
      = match values with
        | [] => count_frames name e
        | _ :: _ => Nat.max 1 (count_frames name e)
        end.
Proof.
  intros Hkey. revert e. induction values as [ | v values IH ]; intros e.
  - exists e. simpl. rewrite app_nil_r. auto.
  - destruct (set_text_tag_mapped e key name v Hkey)
      as (e1 & Hstep & Hvals & Hcount & _).
    destruct (IH e1) as (e' & Hrest & Hvals' & Hcount').
    exists e'. cbn [set_text_tags]. rewrite Hstep.
    split; [ exact Hrest | ]. split.
    + rewrite Hvals', Hvals, <- app_assoc. reflexivity.
    + rewrite Hcount'. destruct values; rewrite Hcount; lia.
Qed.

(** C9. With a null value, or with a key that is neither in
    [kMetatagMap] nor one of the four number and total keys,
    [set_text_tag] returns and the encoder, tag set included, is as
    before. *)
Theorem set_text_tag_ignores (e : Mp3Encoder) (key : Z)
    (value : option string) :
  value = None
  ∨ (kMetatagMap !! key = None
     ∧ key ≠ METATAG_TRACKNUMBER ∧ key ≠ METATAG_TRACKTOTAL
     ∧ key ≠ METATAG_DISCNUMBER ∧ key ≠ METATAG_DISCTOTAL) →
  set_text_tag e key value = Some e.
Proof.
  intros [-> | (Hmap & Hn & Ht & Hdn & Hdt)]; [ reflexivity | ].
  unfold set_text_tag. destruct value as [value | ]; [ | reflexivity ].
  rewrite Hmap. unfold is_number_or_total.
  destruct (Z.eqb_spec key METATAG_TRACKNUMBER); [ contradiction | ].
  destruct (Z.eqb_spec key METATAG_TRACKTOTAL); [ contradiction | ].
  destruct (Z.eqb_spec key METATAG_DISCNUMBER); [ contradiction | ].
  destruct (Z.eqb_spec key METATAG_DISCTOTAL); [ contradiction | ].
  reflexivity.
Qed.

(** What [set_stream_params] adds to the track-length frame for every
    64-bit sample count: the product S * 1000 is taken modulo 2^64. *)
Lemma track_length_wrapped (e : Mp3Encoder)
    (num_samples sample_rate channels : Z) :
  0 ≤ num_samples < 2 ^ 64 →
  0 < sample_rate < 2 ^ 31 →
  (lame_init_params
     (lame_set_num_channels
        (lame_set_in_samplerate
           (lame_set_num_samples (lame_encoder_ e) num_samples)
           sample_rate)
        channels)).1 ≠ -1 →
  ∃ e' : Mp3Encoder,
    set_stream_params e num_samples sample_rate channels = Some (0, e')
    ∧ text_values "TLEN" e'
      = text_values "TLEN" e
        ++ [id3_utf8_ucs4duplicate
              (pretty (Z.to_N (wrap64 (num_samples * 1000) / sample_rate)))].
Proof.
  intros HS HR Hinit. unfold set_stream_params.
  destruct (lame_init_params _) as [rc l4]. simpl in Hinit.
  destruct (Z.eqb_spec rc (-1)) as [ | _ ]; [ contradiction | ].
  rewrite (wrap64_small sample_rate) by lia.
  destruct (Z.eqb_spec sample_rate 0) as [ | _ ]; [ lia | ].
  rewrite (wrap64_small num_samples) by lia.
  unfold kMillisPerSec.
  destruct (set_text_tag_mapped (with_lame e l4) METATAG_TRACKLENGTH "TLEN"
              (pretty (Z.to_N (wrap64 (num_samples * 1000) / sample_rate))))
    as (e' & Hset & Hvals & _); [ reflexivity | ].
  exists e'. rewrite Hset. simpl. split; [ reflexivity | exact Hvals ].
Qed.

(** C6. [set_stream_params], for a stream of S samples at the rate R > 0
    whose parameters LAME accepts, adds to the track-length frame (TLEN)
    the decimal rendering of the integer S * 1000 / R, the length of the
    stream in milliseconds. *)
Theorem set_stream_params_track_length (e : Mp3Encoder)
    (num_samples sample_rate channels : Z) :
  0 ≤ num_samples → num_samples * 1000 < 2 ^ 64 →
  0 < sample_rate < 2 ^ 31 →
  (lame_init_params
     (lame_set_num_channels
        (lame_set_in_samplerate
           (lame_set_num_samples (lame_encoder_ e) num_samples)
           sample_rate)
        channels)).1 ≠ -1 →
  ∃ e' : Mp3Encoder,
    set_stream_params e num_samples sample_rate channels = Some (0, e')
    ∧ text_values "TLEN" e'
      = text_values "TLEN" e
        ++ [id3_utf8_ucs4duplicate
              (pretty (Z.to_N (num_samples * 1000 / sample_rate)))].
Proof.
  intros HS Hprod HR Hinit.
  destruct (track_length_wrapped e num_samples sample_rate
              channels) as (e' & Hrun & Hvals); [ lia | exact HR | exact Hinit | ].
  exists e'. split; [ exact Hrun | ].
  rewrite Hvals, (wrap64_small (num_samples * 1000)) by lia. reflexivity.
Qed.

End TagSet.

(** ** Track and disc numbers *)

Lemma append_empty_r (s : string) : String.append s "" = s.
Proof.
  induction s as [ | a s IH ]; [ reflexivity | ].
  change (String a (String.append s "") = String a s). rewrite IH.
  reflexivity.
Qed.

Lemma append_assoc (a b c : string) :
  String.append (String.append a b) c = String.append a (String.append b c).
Proof.
  induction a as [ | x a IH ]; [ reflexivity | ].
  change (String x (String.append (String.append a b) c)
          = String x (String.append a (String.append b c))).
  rewrite IH. reflexivity.
Qed.

Section NumberTotal.

Context `{Lame} `{Id3Lib}.

(** [set_text_tag] on one of the four number and total keys, with the
    dispatch on the key resolved. *)
Lemma set_text_tag_pair (e : Mp3Encoder) (pr : number_pair) (number : bool)
    (value : string) :
  set_text_tag e (if number then number_key pr else total_key pr)
    (Some value)
  = '(t, i, lat) ←
      match id3_tag_findframe (id3tag_ e) (pair_frame pr) with
      | Some (i, frame) =>
          pre ← id3_field_getstrings frame;
          Some (id3tag_ e, i, id3_ucs4_latin1duplicate pre)
      | None =>
          let '(t, i) := attach_new (id3tag_ e) (pair_frame pr) in
          Some (t, i, ""%string)
      end;
    Some (with_id3tag e
            (update_frame i
               (id3_field_setstrings
                  [id3_latin1_ucs4duplicate
                     (if number then String.append value lat
                      else String.append lat (String.append "/" value))])
               t)).
Proof.
  unfold set_text_tag.
  assert (Hkeys : kMetatagMap !! METATAG_TRACKNUMBER = None
                  ∧ kMetatagMap !! METATAG_TRACKTOTAL = None
                  ∧ kMetatagMap !! METATAG_DISCNUMBER = None
                  ∧ kMetatagMap !! METATAG_DISCTOTAL = None)
    by (vm_compute; auto).
  destruct Hkeys as (Htn & Htt & Hdn & Hdt).
  destruct pr, number; simpl number_key; simpl total_key; simpl pair_frame;
    rewrite ?Htn, ?Htt, ?Hdn, ?Hdt; reflexivity.
Qed.

(** A first call, on a tag without the frame, creates the frame with the
    given part. *)
Lemma set_text_tag_pair_new (e : Mp3Encoder) (pr : number_pair)
    (number : bool) (value : string) :
  id3_tag_findframe (id3tag_ e) (pair_frame pr) = None →
  set_text_tag e (if number then number_key pr else total_key pr)
    (Some value)
  = Some (with_id3tag e
            (with_frames (id3tag_ e)
               (tag_frames (id3tag_ e)
                ++ [ {| frame_id := pair_frame pr;
                        frame_textencoding := ID3_FIELD_TEXTENCODING_UTF_8;
                        frame_strings :=
                          [id3_latin1_ucs4duplicate
                             (if number then value
                              else String.append "/" value)] |} ]))).
Proof.
  intros Hnone. rewrite set_text_tag_pair, Hnone. simpl.
  unfold update_frame. simpl. rewrite alter_snoc.
  destruct number; simpl; rewrite ?append_empty_r; reflexivity.
Qed.

(** A call on a tag whose last frame is the pair's frame, and the first
    one of that name, joins the new part to the part that is there. *)
Lemma set_text_tag_pair_last (e : Mp3Encoder) (pr : number_pair)
    (number : bool) (value part : string) (frames : list id3_frame)
    (enc : id3_field_textencoding) :
  list_find (has_id (pair_frame pr)) frames = None →
  tag_frames (id3tag_ e)
  = frames ++ [ {| frame_id := pair_frame pr; frame_textencoding := enc;
                   frame_strings := [id3_latin1_ucs4duplicate part] |} ] →
  set_text_tag e (if number then number_key pr else total_key pr)
    (Some value)
  = Some (with_id3tag e
            (with_frames (id3tag_ e)
               (frames
                ++ [ {| frame_id := pair_frame pr; frame_textencoding := enc;
                        frame_strings :=
                          [id3_latin1_ucs4duplicate
                             (if number then String.append value part
                              else String.append part
                                     (String.append "/" value))] |} ]))).
Proof.
  intros Hnone Hframes. rewrite set_text_tag_pair.
  unfold id3_tag_findframe. rewrite Hframes.
  rewrite find_snoc by (exact Hnone || reflexivity). simpl.
  rewrite latin1_roundtrip. unfold update_frame. rewrite Hframes.
  rewrite alter_snoc. reflexivity.
Qed.

(** C7. On a tag without the frame, setting the number to n and the total
    to t leaves n, "/" and t joined in the one frame of the pair (TRCK for
    the track, TPOS for the disc), whichever of the two is set first. *)
Theorem set_number_total_commute (e : Mp3Encoder) (pr : number_pair)
    (n t : string) :
  id3_tag_findframe (id3tag_ e) (pair_frame pr) = None →
  ∃ e' : Mp3Encoder,
    set_number_then_total pr n t e = Some e'
    ∧ set_total_then_number pr n t e = Some e'
    ∧ text_values (pair_frame pr) e'
      = [id3_latin1_ucs4duplicate (String.append n (String.append "/" t))]
    ∧ count_frames (pair_frame pr) e' = 1%nat.
Proof.
  intros Hnone. unfold set_number_then_total, set_total_then_number.
  rewrite (set_text_tag_pair_new e pr true n Hnone).
  rewrite (set_text_tag_pair_new e pr false t Hnone).
  cbn [mbind option_bind].
  erewrite (set_text_tag_pair_last _ pr false t n);
    [ | exact Hnone | reflexivity ].
  erewrite (set_text_tag_pair_last _ pr true n (String.append "/" t));
    [ | exact Hnone | reflexivity ].
  eexists. split; [ reflexivity | ]. split; [ reflexivity | ].
  unfold text_values, count_frames, id3_tag_findframe. simpl.
  rewrite find_snoc by (exact Hnone || reflexivity).
  rewrite filter_app, (filter_not_found _ _ Hnone).
  rewrite filter_cons_True by reflexivity. split; reflexivity.
Qed.

(** A call on a tag that has the pair's frame joins the new part to the
    first value of that frame. *)
Lemma set_text_tag_pair_existing (e : Mp3Encoder) (pr : number_pair)
    (number : bool) (value : string) (i : nat) (f : id3_frame)
    (pre : ucs4) (rest : list ucs4) :
  id3_tag_findframe (id3tag_ e) (pair_frame pr) = Some (i, f) →
  frame_strings f = pre :: rest →
  set_text_tag e (if number then number_key pr else total_key pr)
    (Some value)
  = Some (with_id3tag e
            (update_frame i
               (id3_field_setstrings
                  [id3_latin1_ucs4duplicate
                     (if number
                      then String.append value (id3_ucs4_latin1duplicate pre)
                      else String.append (id3_ucs4_latin1duplicate pre)
                             (String.append "/" value))])
               (id3tag_ e))).
Proof.
  intros Hfind Hpre. rewrite set_text_tag_pair, Hfind.
  unfold id3_field_getstrings. rewrite Hpre. reflexivity.
Qed.

(** The two orders agree as well when the frame is there already: its
    first value ends up between the number and the "/". *)
Lemma number_total_on_existing_frame (e : Mp3Encoder) (pr : number_pair)
    (n t : string) (i : nat) (f : id3_frame) (pre : ucs4)
    (rest : list ucs4) :
  id3_tag_findframe (id3tag_ e) (pair_frame pr) = Some (i, f) →
  frame_strings f = pre :: rest →
  ∃ e' : Mp3Encoder,
    set_number_then_total pr n t e = Some e'
    ∧ set_total_then_number pr n t e = Some e'
    ∧ text_values (pair_frame pr) e'
      = [id3_latin1_ucs4duplicate
           (String.append n
              (String.append (id3_ucs4_latin1duplicate pre)
                 (String.append "/" t)))].
Proof.
  intros Hfind Hpre. unfold set_number_then_total, set_total_then_number.
  rewrite (set_text_tag_pair_existing e pr true n i f pre rest Hfind Hpre).
  rewrite (set_text_tag_pair_existing e pr false t i f pre rest Hfind Hpre).
  cbn [mbind option_bind].
  erewrite (set_text_tag_pair_existing _ pr false t i);
    [ | apply find_alter; [ reflexivity | exact Hfind ] | reflexivity ].
  erewrite (set_text_tag_pair_existing _ pr true n i);
    [ | apply find_alter; [ reflexivity | exact Hfind ] | reflexivity ].
  rewrite !latin1_roundtrip, append_assoc.
  unfold update_frame, with_id3tag. simpl.
  rewrite !list_alter_alter_eq.
  eexists. split; [ reflexivity | ]. split; [ reflexivity | ].
  unfold text_values, id3_tag_findframe. simpl.
  rewrite (find_alter _ _ _ i f) by (reflexivity || exact Hfind).
  reflexivity.
Qed.

End NumberTotal.

(** ** Encoding a block *)

Section EncodePcm.

Context `{Lame} `{Id3Lib}.

(** C10. [encode_pcm_data] touches the Buffer all or nothing. When
    [lame_encode_buffer_int] reports a negative length the result is -1
    and no call is made on the Buffer; otherwise the result is 0 and the
    one call made is an append of the bytes LAME wrote into the output
    vector, cut to exactly the reported length. *)
Theorem encode_pcm_data_atomic (e : Mp3Encoder) (data : list (list Z))
    (numsamples sample_size len : Z) (out : list byte) (l : lame_t) :
  pcm_encode_call e data numsamples sample_size = Some (len, out, l) →
  (len < 0 →
   encode_pcm_data e data numsamples sample_size = Some (-1, with_lame e l)
   ∧ buffer_ (with_lame e l) = buffer_ e)
  ∧ (0 ≤ len →
     ∃ (e' : Mp3Encoder) (vbuffer : list byte),
       encode_pcm_data e data numsamples sample_size = Some (0, e')
       ∧ vbuffer = resize len (filled (vbuffer_size numsamples) out)
       ∧ e' = buffer_call (with_lame e l) (Buffer.write vbuffer false)
       ∧ buffer_ e' = buffer_ e ++ [Buffer.write vbuffer false]
       ∧ Z.of_nat (length vbuffer) = len).
Proof.
  intros Hcall. unfold encode_pcm_data. rewrite Hcall.
  cbn [mbind option_bind]. split.
  - intros Hneg. destruct (Z.ltb_spec len 0); [ | lia ].
    split; reflexivity.
  - intros Hlen. destruct (Z.ltb_spec len 0); [ lia | ].
    eexists. eexists. split; [ reflexivity | ].
    split; [ reflexivity | ]. split; [ reflexivity | ].
    split; [ reflexivity | ]. apply length_resize_Z. exact Hlen.
Qed.

End EncodePcm.

(** A failing and a succeeding block on the reference backend. *)
Lemma encode_pcm_data_atomic_witness :
  (encode_pcm_data Reference.unbound_mono [[1; 2; 3]] 3 16
   = Some (-1, Reference.unbound_mono)
   ∧ buffer_ Reference.unbound_mono = [])
  ∧ ∃ (e' : Mp3Encoder) (vbuffer : list byte),
      encode_pcm_data (Reference.rendered Reference.cbr) [[1; 2; 3]] 3 16
      = Some (0, e')
      ∧ vbuffer = resize 3 (filled (vbuffer_size 3) [x00; x00; x00])
      ∧ e' = buffer_call (Reference.rendered Reference.cbr)
               (Buffer.write vbuffer false)
      ∧ buffer_ e'
        = buffer_ (Reference.rendered Reference.cbr)
          ++ [Buffer.write vbuffer false]
      ∧ Z.of_nat (length vbuffer) = 3.
Proof.
  split.
  - apply (encode_pcm_data_atomic Reference.unbound_mono [[1; 2; 3]] 3 16
             (-3) [] (lame_encoder_ Reference.unbound_mono));
      by_evaluation.
  - apply (encode_pcm_data_atomic (Reference.rendered Reference.cbr)
             [[1; 2; 3]] 3 16 3 [x00; x00; x00]
             (lame_encoder_ (Reference.rendered Reference.cbr)));
      by_evaluation.
Defined.

(** ** The tag set on the reference backend *)

Lemma set_stream_params_track_length_witness :
  ∃ e' : Mp3Encoder,
    set_stream_params Reference.encoder 100000 44100 1 = Some (0, e')
    ∧ text_values "TLEN" e'
      = text_values "TLEN" Reference.encoder
        ++ [id3_utf8_ucs4duplicate
              (pretty (Z.to_N (100000 * 1000 / 44100)))].
Proof.
  apply (set_stream_params_track_length Reference.encoder 100000 44100 1);
    by_evaluation.
Defined.

(** 100000 samples at 44100 Hz are 2267 ms. *)
Example track_length_of_the_scenario :
  text_values "TLEN" Reference.bound = [id3_latin1_ucs4duplicate "2267"].
Proof. by_evaluation. Qed.

Lemma set_number_total_commute_witness :
  ∃ e' : Mp3Encoder,
    set_number_then_total track_pair "3" "12" Reference.bound = Some e'
    ∧ set_total_then_number track_pair "3" "12" Reference.bound = Some e'
    ∧ text_values "TRCK" e' = [id3_latin1_ucs4duplicate "3/12"]
    ∧ count_frames "TRCK" e' = 1%nat.
Proof.
  apply (set_number_total_commute Reference.bound track_pair "3" "12").
  by_evaluation.
Defined.

Lemma set_text_tag_accumulates_witness :
  ∃ e' : Mp3Encoder,
    set_text_tags METATAG_ARTIST ["Ann"; "Bob"]%string Reference.bound
    = Some e'
    ∧ text_values "TPE1" e'
      = text_values "TPE1" Reference.bound
        ++ (id3_utf8_ucs4duplicate <$> ["Ann"; "Bob"]%string)
    ∧ count_frames "TPE1" e'
      = Nat.max 1 (count_frames "TPE1" Reference.bound).
Proof.
  apply (set_text_tag_accumulates Reference.bound METATAG_ARTIST "TPE1"
           ["Ann"; "Bob"]%string).
  by_evaluation.
Defined.

Lemma set_text_tag_ignores_witness :
  set_text_tag Reference.bound METATAG_TITLE None = Some Reference.bound
  ∧ set_text_tag Reference.bound 99 (Some "x"%string) = Some Reference.bound.
Proof.
  split.
  - apply (set_text_tag_ignores Reference.bound METATAG_TITLE None).
    left. reflexivity.
  - apply (set_text_tag_ignores Reference.bound 99 (Some "x"%string)).
    right. by_evaluation.
Defined.

(** * Further properties *)

(** ** What [set_text_tag] changes *)

Section Frames2.

Context (name : string).

Lemma find_alter_other (g : id3_frame → id3_frame) (l : list id3_frame)
    (i : nat) :
  (∀ x, frame_id (g x) = frame_id x) →
  (∀ f, l !! i = Some f → frame_id f ≠ name) →
  list_find (has_id name) (alter g i l) = list_find (has_id name) l.
Proof.
  intros Hg. revert i. induction l as [ | x l IH ]; intros i Hi;
    [ reflexivity | ].
  destruct i as [ | i ].
  - change (alter g 0%nat (x :: l)) with (g x :: l).
    cbn [list_find].
    destruct (decide (has_id name (g x))) as [Hgx | Hgx],
      (decide (has_id name x)) as [Hx | Hx];
      unfold has_id in Hgx, Hx; rewrite Hg in Hgx;
      first [ reflexivity | contradiction | idtac ].
    exfalso. exact (Hi x eq_refl Hx).
  - change (alter g (S i) (x :: l)) with (x :: alter g i l).
    cbn [list_find]. destruct (decide (has_id name x)); [ reflexivity | ].
    rewrite IH; [ reflexivity | ]. intros f Hf. apply Hi. exact Hf.
Qed.

Lemma find_snoc_other (l : list id3_frame) (f : id3_frame) :
  frame_id f ≠ name →
  list_find (has_id name) (l ++ [f]) = list_find (has_id name) l.
Proof.
  intros Hf. induction l as [ | x l IH ].
  - simpl. rewrite decide_False by exact Hf. reflexivity.
  - change ((x :: l) ++ [f]) with (x :: (l ++ [f])). cbn [list_find].
    rewrite IH. reflexivity.
Qed.

Lemma filter_alter_other (g : id3_frame → id3_frame) (l : list id3_frame)
    (i : nat) :
  (∀ x, frame_id (g x) = frame_id x) →
  length (filter (has_id name) (alter g i l))
  = length (filter (has_id name) l).
Proof. apply filter_alter. Qed.

Lemma filter_snoc_other (l : list id3_frame) (f : id3_frame) :
  frame_id f ≠ name →
  filter (has_id name) (l ++ [f]) = filter (has_id name) l.
Proof.
  intros Hf. rewrite filter_app, (filter_cons_False _ f []) by exact Hf.
  rewrite filter_nil. apply app_nil_r.
Qed.

End Frames2.

Lemma elem_of_alter (g : id3_frame → id3_frame) (l : list id3_frame)
    (i : nat) (x : id3_frame) :
  x ∈ alter g i l → x ∈ l ∨ ∃ f, l !! i = Some f ∧ x = g f.
Proof.
  intros Hx. apply list_elem_of_lookup in Hx as [j Hj].
  destruct (decide (i = j)) as [-> | Hne].
  - rewrite list_lookup_alter_eq in Hj.
    destruct (l !! j) as [f | ] eqn:Hf; [ | discriminate ].
    injection Hj as <-. right. exists f. auto.
  - rewrite list_lookup_alter_ne in Hj by exact Hne.
    left. apply list_elem_of_lookup. eauto.
Qed.

Section Changes.

Context `{Lame} `{Id3Lib}.

(** Nothing happens for a null value or a key without a frame. *)
Lemma set_text_tag_noop (e : Mp3Encoder) (key : Z) (value : option string) :
  value = None ∨ field_frame key = None →
  set_text_tag e key value = Some e.
Proof.
  intros [-> | Hnone]; [ reflexivity | ].
  unfold set_text_tag. destruct value as [value | ]; [ | reflexivity ].
  unfold field_frame in Hnone.
  destruct (kMetatagMap !! key); [ discriminate | ].
  destruct (is_number_or_total key); [ discriminate | reflexivity ].
Qed.

(** The shape of every change: the frame of the key gets its value in
    place, or a new frame of that name joins the end of the tag; the
    frame is never left without a value. *)
Lemma set_text_tag_shape (e e' : Mp3Encoder) (key : Z) (value target : string) :
  field_frame key = Some target →
  set_text_tag e key (Some value) = Some e' →
  lame_encoder_ e' = lame_encoder_ e
  ∧ id3size_ e' = id3size_ e
  ∧ buffer_ e' = buffer_ e
  ∧ tag_compression (id3tag_ e') = tag_compression (id3tag_ e)
  ∧ tag_id3v1 (id3tag_ e') = tag_id3v1 (id3tag_ e)
  ∧ tag_paddedsize (id3tag_ e') = tag_paddedsize (id3tag_ e)
  ∧ ((∃ (i : nat) (f : id3_frame) (g : id3_frame → id3_frame),
        list_find (has_id target) (tag_frames (id3tag_ e)) = Some (i, f)
        ∧ (∀ x, frame_id (g x) = frame_id x)
        ∧ frame_strings (g f) ≠ []
        ∧ tag_frames (id3tag_ e') = alter g i (tag_frames (id3tag_ e)))
     ∨ (list_find (has_id target) (tag_frames (id3tag_ e)) = None
        ∧ ∃ f' : id3_frame,
            frame_id f' = target
            ∧ frame_strings f' ≠ []
            ∧ tag_frames (id3tag_ e') = tag_frames (id3tag_ e) ++ [f'])).
Proof.
  unfold field_frame, set_text_tag, id3_tag_findframe.
  destruct (kMetatagMap !! key) as [name | ].
  - intros [= ->].
    destruct (list_find (has_id target) (tag_frames (id3tag_ e)))
      as [[i f] | ] eqn:Hfind; intros [= <-]; simpl.
    + repeat split. left. exists i, f, (id3_field_addstring
        (id3_utf8_ucs4duplicate value)).
      split; [ reflexivity | ]. split; [ reflexivity | ].
      split; [ | reflexivity ]. simpl. intros Hnil.
      apply app_eq_nil in Hnil as [_ Hnil]. discriminate.
    + repeat split. right. split; [ reflexivity | ].
      rewrite alter_snoc. eexists. split; [ | split; [ | reflexivity ] ].
      * reflexivity.
      * simpl. discriminate.
  - destruct (is_number_or_total key); [ | discriminate ].
    intros [= Htarget]. rewrite Htarget.
    destruct (list_find (has_id target) (tag_frames (id3tag_ e)))
      as [[i f] | ] eqn:Hfind.
    + destruct (id3_field_getstrings f) as [pre | ]; simpl;
        [ | discriminate ].
      intros [= <-]. simpl. repeat split. left. eexists i, f, _.
      split; [ reflexivity | ]. split; [ | split; [ | reflexivity ] ].
      * reflexivity.
      * simpl. discriminate.
    + simpl. intros [= <-]. simpl. repeat split. right.
      split; [ reflexivity | ].
      rewrite alter_snoc. eexists. split; [ | split; [ | reflexivity ] ].
      * reflexivity.
      * simpl. discriminate.
Qed.

End Changes.

Section Fields.

Context `{Lame} `{Id3Lib}.

(** X1. A call of [set_text_tag] leaves the values of every frame but
    the one of its key as they were, and the number of frames of every
    other name; the LAME state, [id3size_] and the Buffer are not
    touched. *)
Theorem set_text_tag_other_frames (e e' : Mp3Encoder) (key : Z)
    (value : option string) (other : string) :
  set_text_tag e key value = Some e' →
  field_frame key ≠ Some other →
  text_values other e' = text_values other e
  ∧ count_frames other e' = count_frames other e
  ∧ lame_encoder_ e' = lame_encoder_ e
  ∧ id3size_ e' = id3size_ e
  ∧ buffer_ e' = buffer_ e.
Proof.
  intros Hset Hother.
  destruct value as [value | ]; [ | injection Hset as <-; auto ].
  destruct (field_frame key) as [target | ] eqn:Hfield.
  2: { rewrite set_text_tag_noop in Hset by auto.
       injection Hset as <-. auto. }
  assert (Hne : target ≠ other) by congruence.
  destruct (set_text_tag_shape e e' key value target Hfield Hset)
    as (Hl & Hs & Hb & _ & _ & _ & Hframes).
  unfold text_values, count_frames, id3_tag_findframe.
  destruct Hframes as [(i & f & g & Hfind & Hg & _ & ->)
                      | (_ & f' & Hid & _ & ->)].
  - apply list_find_Some in Hfind as (Hi & Hf & _).
    rewrite find_alter_other, filter_alter by
      (try exact Hg; intros f0 Hf0; unfold has_id in Hf; congruence).
    auto.
  - rewrite find_snoc_other, filter_snoc_other by congruence. auto.
Qed.

(** The frame a call works on is found and has a value as long as no
    TRCK or TPOS frame is empty; the call keeps it that way. *)
Lemma set_text_tag_keeps_filled (e : Mp3Encoder) (key : Z)
    (value : option string) :
  pair_frames_filled (id3tag_ e) →
  ∃ e' : Mp3Encoder,
    set_text_tag e key value = Some e' ∧ pair_frames_filled (id3tag_ e').
Proof.
  intros Hfilled.
  destruct value as [value | ]; [ | exists e; auto ].
  destruct (field_frame key) as [target | ] eqn:Hfield.
  2: { exists e. rewrite set_text_tag_noop by auto. auto. }
  assert (Hdef : ∃ e', set_text_tag e key (Some value) = Some e').
  { unfold set_text_tag, field_frame, id3_tag_findframe in *.
    destruct (kMetatagMap !! key) as [name | ].
    - destruct (list_find _ _) as [[i f] | ]; eexists; reflexivity.
    - destruct (is_number_or_total key); [ | discriminate ].
      injection Hfield as Hfield. rewrite Hfield.
      destruct (list_find (has_id target) (tag_frames (id3tag_ e)))
        as [[i f] | ] eqn:Hfind; [ | eexists; reflexivity ].
      apply list_find_Some in Hfind as (Hi & Hf & _).
      apply list_elem_of_lookup_2 in Hi.
      assert (Hstr : frame_strings f ≠ []).
      { apply Hfilled; [ exact Hi | ]. unfold has_id in Hf. rewrite Hf.
        rewrite <- Hfield.
        destruct ((key =? METATAG_TRACKNUMBER) || (key =? METATAG_TRACKTOTAL));
          auto. }
      unfold id3_field_getstrings.
      destruct (frame_strings f) as [ | pre rest ]; [ contradiction | ].
      eexists. reflexivity. }
  destruct Hdef as [e' Hset]. exists e'. split; [ exact Hset | ].
  destruct (set_text_tag_shape e e' key value target Hfield Hset)
    as (_ & _ & _ & _ & _ & _ & Hframes).
  intros x Hx Hpair.
  destruct Hframes as [(i & f & g & Hfind & Hg & Hstr & Heq)
                      | (_ & f' & Hid & Hstr & Heq)];
    rewrite Heq in Hx.
  - apply list_find_Some in Hfind as (Hi & _ & _).
    apply elem_of_alter in Hx as [Hx | (f0 & Hf0 & ->)].
    + apply Hfilled; assumption.
    + rewrite Hi in Hf0. injection Hf0 as <-. exact Hstr.
  - apply elem_of_app in Hx as [Hx | Hx].
    + apply Hfilled; assumption.
    + apply list_elem_of_singleton in Hx as ->. exact Hstr.
Qed.

(** X2. On a tag in which no TRCK or TPOS frame is empty, every sequence
    of [set_text_tag] calls, whatever the keys and values, runs without
    reading a missing value, and the tag it leaves is of that kind
    again. *)
Theorem set_text_tag_calls_defined (e : Mp3Encoder)
    (calls : list (Z * option string)) :
  pair_frames_filled (id3tag_ e) →
  ∃ e' : Mp3Encoder,
    set_text_tag_calls calls e = Some e'
    ∧ pair_frames_filled (id3tag_ e').
Proof.
  revert e. induction calls as [ | [key value] calls IH ]; intros e Hfilled.
  - exists e. auto.
  - destruct (set_text_tag_keeps_filled e key value Hfilled)
      as (e1 & Hset & Hfilled1).
    destruct (IH e1 Hfilled1) as (e' & Hrest & Hfilled').
    exists e'. cbn [set_text_tag_calls]. rewrite Hset. auto.
Qed.

End Fields.

(** The eighteen fields and their frames. *)
Lemma field_frame_cases (key : Z) (name : string) :
  field_frame key = Some name →
  (key, name) ∈
    [ (METATAG_TITLE, "TIT2"); (METATAG_ARTIST, "TPE1");
      (METATAG_ALBUM, "TALB"); (METATAG_GENRE, "TCON");
      (METATAG_DATE, "TDRC"); (METATAG_COMPOSER, "TCOM");
      (METATAG_PERFORMER, "TOPE"); (METATAG_COPYRIGHT, "TCOP");
      (METATAG_ENCODEDBY, "TENC"); (METATAG_ORGANIZATION, "TPUB");
      (METATAG_CONDUCTOR, "TPE3"); (METATAG_ALBUMARTIST, "TPE2");
      (METATAG_ENCODER, "TSSE"); (METATAG_TRACKLENGTH, "TLEN");
      (METATAG_TRACKNUMBER, "TRCK"); (METATAG_TRACKTOTAL, "TRCK");
      (METATAG_DISCNUMBER, "TPOS"); (METATAG_DISCTOTAL, "TPOS") ]%string.
Proof.
  unfold field_frame.
  destruct (kMetatagMap !! key) as [n | ] eqn:Hmap.
  - intros [= ->]. unfold kMetatagMap in Hmap.
    apply elem_of_list_to_map_2 in Hmap.
    rewrite !elem_of_cons in Hmap. rewrite !elem_of_cons. tauto.
  - unfold is_number_or_total.
    destruct (Z.eqb_spec key METATAG_TRACKNUMBER) as [-> | ];
      [ intros [= <-]; rewrite !elem_of_cons; tauto | ].
    destruct (Z.eqb_spec key METATAG_TRACKTOTAL) as [-> | ];
      [ intros [= <-]; rewrite !elem_of_cons; tauto | ].
    destruct (Z.eqb_spec key METATAG_DISCNUMBER) as [-> | ];
      [ intros [= <-]; rewrite !elem_of_cons; tauto | ].
    destruct (Z.eqb_spec key METATAG_DISCTOTAL) as [-> | ];
      [ intros [= <-]; rewrite !elem_of_cons; tauto | ].
    discriminate.
Qed.

(** X3. Two different keys work on one frame only when they are the
    number and the total of the track, or of the disc: no two fields of
    [kMetatagMap] share a frame, and none of them uses TRCK or TPOS. *)
Theorem field_frames_shared_only_in_pairs (k1 k2 : Z) (name : string) :
  field_frame k1 = Some name → field_frame k2 = Some name →
  k1 = k2
  ∨ ((k1 = METATAG_TRACKNUMBER ∨ k1 = METATAG_TRACKTOTAL)
     ∧ (k2 = METATAG_TRACKNUMBER ∨ k2 = METATAG_TRACKTOTAL))
  ∨ ((k1 = METATAG_DISCNUMBER ∨ k1 = METATAG_DISCTOTAL)
     ∧ (k2 = METATAG_DISCNUMBER ∨ k2 = METATAG_DISCTOTAL)).
Proof.
  intros H1 H2.
  apply field_frame_cases in H1. apply field_frame_cases in H2.
  rewrite !elem_of_cons, elem_of_nil in H1.
  rewrite !elem_of_cons, elem_of_nil in H2.
  repeat (destruct H1 as [H1 | H1]; [ injection H1 as -> -> | ]);
    try contradiction;
    repeat (destruct H2 as [H2 | H2];
            [ first [ discriminate H2 | injection H2 as -> ] | ]);
    try contradiction; auto.
Qed.

Section Repeats.

Context `{Lame} `{Id3Lib}.

(** X4. A number or a total that is set again does not replace the one
    before: on a tag without the frame, the numbers a and then b leave
    "ba", the totals a and then b leave "/a/b", each as the one value of
    the frame. *)
Theorem set_number_again_keeps_both (e : Mp3Encoder) (pr : number_pair)
    (a b : string) :
  id3_tag_findframe (id3tag_ e) (pair_frame pr) = None →
  (∃ e' : Mp3Encoder,
     (e1 ← set_text_tag e (number_key pr) (Some a);
      set_text_tag e1 (number_key pr) (Some b)) = Some e'
     ∧ text_values (pair_frame pr) e'
       = [id3_latin1_ucs4duplicate (String.append b a)])
  ∧ (∃ e' : Mp3Encoder,
       (e1 ← set_text_tag e (total_key pr) (Some a);
        set_text_tag e1 (total_key pr) (Some b)) = Some e'
       ∧ text_values (pair_frame pr) e'
         = [id3_latin1_ucs4duplicate
              (String.append (String.append "/" a) (String.append "/" b))]).
Proof.
  intros Hnone. split.
  - rewrite (set_text_tag_pair_new e pr true a Hnone).
    cbn [mbind option_bind].
    erewrite (set_text_tag_pair_last _ pr true b a);
      [ | exact Hnone | reflexivity ].
    eexists. split; [ reflexivity | ].
    unfold text_values, id3_tag_findframe. simpl.
    rewrite find_snoc by (exact Hnone || reflexivity). reflexivity.
  - rewrite (set_text_tag_pair_new e pr false a Hnone).
    cbn [mbind option_bind].
    erewrite (set_text_tag_pair_last _ pr false b (String.append "/" a));
      [ | exact Hnone | reflexivity ].
    eexists. split; [ reflexivity | ].
    unfold text_values, id3_tag_findframe. simpl.
    rewrite find_snoc by (exact Hnone || reflexivity). reflexivity.
Qed.

(** The values of a frame that is not the one of the key stay. *)
Lemma text_values_other (e e' : Mp3Encoder) (key : Z)
    (value : option string) (other : string) :
  set_text_tag e key value = Some e' →
  field_frame key ≠ Some other →
  text_values other e' = text_values other e.
Proof.
  intros Hset Hother.
  destruct value as [value | ]; [ | injection Hset as <-; reflexivity ].
  destruct (field_frame key) as [target | ] eqn:Hfield.
  2: { rewrite set_text_tag_noop in Hset by auto.
       injection Hset as <-. reflexivity. }
  destruct (set_text_tag_shape e e' key value target Hfield Hset)
    as (_ & _ & _ & _ & _ & _ & Hframes).
  unfold text_values, id3_tag_findframe.
  destruct Hframes as [(i & f & g & Hfind & Hg & _ & ->)
                      | (_ & f' & Hid & _ & ->)].
  - apply list_find_Some in Hfind as (Hi & Hf & _).
    rewrite find_alter_other;
      [ reflexivity | exact Hg | ].
    intros f0 Hf0. unfold has_id in Hf. congruence.
  - rewrite find_snoc_other by congruence. reflexivity.
Qed.

(** X6. When [lame_init_params] returns -1, [set_stream_params] returns
    -1 as well, for every sample rate, 0 included: the length is not
    computed, and the tag, [id3size_] and the Buffer are as before. *)
Theorem set_stream_params_rejected (e : Mp3Encoder)
    (num_samples sample_rate channels : Z) :
  (lame_init_params
     (lame_set_num_channels
        (lame_set_in_samplerate
           (lame_set_num_samples (lame_encoder_ e) num_samples)
           sample_rate)
        channels)).1 = -1 →
  ∃ e' : Mp3Encoder,
    set_stream_params e num_samples sample_rate channels = Some (-1, e')
    ∧ id3tag_ e' = id3tag_ e
    ∧ id3size_ e' = id3size_ e
    ∧ buffer_ e' = buffer_ e.
Proof.
  intros Hinit. unfold set_stream_params.
  destruct (lame_init_params _) as [rc l]. simpl in Hinit. subst rc.
  simpl. eexists. split; [ reflexivity | ]. repeat split.
Qed.

(** X7. Whenever [set_stream_params] returns, its result is 0 or -1, the
    Buffer and [id3size_] are as before, and so are the values of every
    frame but TLEN; with the result -1 the whole tag is as before, with
    the result 0 the TLEN frame has one value more. *)
Theorem set_stream_params_frame (e e' : Mp3Encoder)
    (num_samples sample_rate channels ret : Z) :
  set_stream_params e num_samples sample_rate channels = Some (ret, e') →
  (ret = 0 ∨ ret = -1)
  ∧ buffer_ e' = buffer_ e
  ∧ id3size_ e' = id3size_ e
  ∧ (∀ other : string,
       other ≠ "TLEN"%string → text_values other e' = text_values other e)
  ∧ (ret = -1 → id3tag_ e' = id3tag_ e)
  ∧ (ret = 0 →
     length (text_values "TLEN" e') = S (length (text_values "TLEN" e))).
Proof.
  unfold set_stream_params.
  destruct (lame_init_params _) as [rc l].
  destruct (rc =? -1).
  { intros [= <- <-]. repeat split; auto. intros [=]. }
  destruct (wrap64 sample_rate =? 0); [ discriminate | ].
  set (tempstr := pretty _).
  destruct (set_text_tag_mapped (with_lame e l) METATAG_TRACKLENGTH "TLEN"
              tempstr eq_refl) as (e1 & Hset & Hvals & _ & _ & Hs & Hb).
  rewrite Hset. simpl. intros [= <- <-].
  split; [ auto | ]. split; [ exact Hb | ]. split; [ exact Hs | ].
  split; [ | split; [ intros [=] | ] ].
  - intros other Hother.
    rewrite (text_values_other (with_lame e l) e1 METATAG_TRACKLENGTH
               (Some tempstr) other Hset); [ reflexivity | ].
    intros [= Heq]. apply Hother. symmetry. exact Heq.
  - intros _. rewrite Hvals, length_app. simpl.
    change (text_values "TLEN" (with_lame e l)) with (text_values "TLEN" e).
    lia.
Qed.

End Repeats.

Section Constructor.

Context `{LameSetup} `{Id3Lib}.

(** X5. A new encoder is always built; its tag has one frame, TSSE in
    UTF-8 with the package name as its value, the Buffer has received no
    call, and no TRCK or TPOS frame is empty. *)
Theorem new_encoder_tag (p : Mp3fsParams) (PACKAGE_NAME : string)
    (buffer : list Buffer.call) (id3size : Z) :
  ∃ e : Mp3Encoder,
    Mp3Encoder_new p PACKAGE_NAME buffer id3size = Some e
    ∧ tag_frames (id3tag_ e)
      = [ {| frame_id := "TSSE";
             frame_textencoding := ID3_FIELD_TEXTENCODING_UTF_8;
             frame_strings := [id3_utf8_ucs4duplicate PACKAGE_NAME] |} ]
    ∧ text_values "TSSE" e = [id3_utf8_ucs4duplicate PACKAGE_NAME]
    ∧ buffer_ e = buffer
    ∧ id3size_ e = id3size
    ∧ pair_frames_filled (id3tag_ e).
Proof.
  unfold Mp3Encoder_new, set_text_tag.
  assert (Hkey : kMetatagMap !! METATAG_ENCODER = Some "TSSE"%string)
    by reflexivity.
  rewrite Hkey. simpl. eexists. split; [ reflexivity | ]. simpl.
  repeat split.
  intros f Hf Hpair. apply list_elem_of_singleton in Hf as ->.
  simpl in Hpair. destruct Hpair; discriminate.
Qed.

End Constructor.

(** ** More on the size estimate and the rendered tags *)

Lemma to_int_small (y : Z) : - 2 ^ 31 ≤ y < 2 ^ 31 → to_int y = y.
Proof.
  intros Hy. unfold to_int, wrap32.
  destruct (Z.neg_nonneg_cases y) as [Hneg | Hpos].
  - replace (y mod 2 ^ 32) with (y + 2 ^ 32)
      by (apply Z.mod_unique with (q := -1); lia).
    destruct (Z.ltb_spec (y + 2 ^ 32) (2 ^ 31)); lia.
  - rewrite Z.mod_small by lia.
    destruct (Z.ltb_spec y (2 ^ 31)); lia.
Qed.

Section Estimate2.

Context `{Lame} `{Id3Lib}.

(** The data size depends on the parameters through the bit-rate only. *)
Lemma mp3_data_size_bitrate (p1 p2 : Mp3fsParams) (e : Mp3Encoder)
    (rate : Z) :
  bitrate p1 = bitrate p2 →
  mp3_data_size p1 e rate = mp3_data_size p2 e rate.
Proof. intros Hb. unfold mp3_data_size. rewrite Hb. reflexivity. Qed.

(** X8. When LAME does not resample, the estimate for a variable
    bit-rate is the one for the fixed bit-rate of the same value plus
    [kMaxVbrFrameSize], in 64-bit arithmetic. *)
Theorem calculate_size_vbr_slack (p1 p2 : Mp3fsParams) (e : Mp3Encoder)
    (size : Z) :
  vbr p1 = 0 → vbr p2 ≠ 0 → bitrate p1 = bitrate p2 →
  lame_get_in_samplerate (lame_encoder_ e)
  = lame_get_out_samplerate (lame_encoder_ e) →
  calculate_size p1 e = Some size →
  calculate_size p2 e = Some (wrap64 (size + kMaxVbrFrameSize)).
Proof.
  intros H1 H2 Hb Hrate. rewrite !calculate_size_cases, H1.
  destruct (Z.eqb_spec (vbr p2) 0) as [ | _ ]; [ contradiction | ].
  simpl. rewrite Hrate, (mp3_data_size_bitrate p1 p2 e _ Hb).
  destruct (mp3_data_size p2 e _) as [data | ]; simpl; [ | discriminate ].
  intros [= <-]. f_equal. unfold wrap64.
  rewrite !Zplus_mod_idemp_l. f_equal. lia.
Qed.

(** X9. [render_tag] is undefined only when it has to estimate the size
    (file size 0) and the sample rate the estimate divides by is 0 as a
    64-bit value; with a file size given it always runs. *)
Theorem render_tag_defined (p : Mp3fsParams) (e : Mp3Encoder)
    (file_size : Z) :
  render_tag p e file_size = None
  ↔ file_size = 0
    ∧ wrap64 (if vbr p =? 0
              then lame_get_out_samplerate (lame_encoder_ e)
              else lame_get_in_samplerate (lame_encoder_ e)) = 0.
Proof.
  unfold render_tag.
  destruct (Z.eqb_spec file_size 0) as [-> | Hfs].
  - rewrite calculate_size_cases. cbn [lame_encoder_ buffer_call with_id3tag
      with_id3size]. unfold mp3_data_size at 1 2.
    cbn [lame_encoder_ buffer_call with_id3tag with_id3size].
    destruct (vbr p =? 0);
      match goal with
      | |- context [ wrap64 ?r =? 0 ] => destruct (Z.eqb_spec (wrap64 r) 0)
      end; simpl; split;
      first [ intros [_ ?]; contradiction | discriminate | auto ].
  - simpl. split; [ discriminate | intros [? _]; contradiction ].
Qed.

(** X10. What a run of [render_tag] leaves behind: the result is 0, the
    frames and the LAME state are as before, compression is off and the
    ID3v1 option is on in the encoder's tag, and [id3size_] is the
    number of ID3v2 bytes appended to the Buffer, the first of the two
    calls made. *)
Theorem render_tag_effects (p : Mp3fsParams) (e e' : Mp3Encoder)
    (file_size ret : Z) :
  render_tag p e file_size = Some (ret, e') →
  ret = 0
  ∧ tag_frames (id3tag_ e') = tag_frames (id3tag_ e)
  ∧ tag_compression (id3tag_ e') = false
  ∧ tag_id3v1 (id3tag_ e') = true
  ∧ lame_encoder_ e' = lame_encoder_ e
  ∧ ∃ (tag24 tag1 : list byte) (offset : Z),
      buffer_ e' = buffer_ e ++ [Buffer.write tag24 true;
                                 Buffer.write_end tag1 offset]
      ∧ id3size_ e' = Z.of_nat (length tag24).
Proof.
  unfold render_tag. intros Hrun.
  destruct (if file_size =? 0 then _ else _) as [fs | ]; simpl in Hrun;
    [ | discriminate ].
  injection Hrun as <- <-. repeat split.
  eexists. eexists. eexists. simpl. rewrite <- app_assoc. simpl.
  split; reflexivity.
Qed.

(** X11. With the size estimated (file size 0) and no overflow in the
    estimate, the ID3v1 tag is placed behind the ID3v2 tag: the offset
    handed to [write_end] is at least the number of ID3v2 bytes
    appended, and with a variable bit-rate at least [kMaxVbrFrameSize]
    more. *)
Theorem render_tag_trailer_behind_header (p : Mp3fsParams)
    (e e' : Mp3Encoder) (ret : Z) :
  render_tag p e 0 = Some (ret, e') →
  0 ≤ lame_get_totalframes (lame_encoder_ e) →
  0 ≤ bitrate p < 2 ^ 64 →
  0 < (if vbr p =? 0 then lame_get_out_samplerate (lame_encoder_ e)
       else lame_get_in_samplerate (lame_encoder_ e)) < 2 ^ 64 →
  lame_get_totalframes (lame_encoder_ e) * 144000 * bitrate p < 2 ^ 64 →
  id3size_ e' + kId3v1TagLength + kMaxVbrFrameSize
  + lame_get_totalframes (lame_encoder_ e) * 144000 * bitrate p
    / (if vbr p =? 0 then lame_get_out_samplerate (lame_encoder_ e)
       else lame_get_in_samplerate (lame_encoder_ e)) ≤ PTRDIFF_MAX →
  ∃ (tag24 tag1 : list byte) (offset : Z),
    buffer_ e' = buffer_ e ++ [Buffer.write tag24 true;
                               Buffer.write_end tag1 offset]
    ∧ Z.of_nat (length tag24) ≤ offset
    ∧ (vbr p ≠ 0 → Z.of_nat (length tag24) + kMaxVbrFrameSize ≤ offset).
Proof.
  intros Hrun HF HB HR Hprod Hsum. unfold render_tag in Hrun.
  set (t1 := id3_tag_setlength _ _) in Hrun.
  set (e2 := with_id3tag (buffer_call _ _) (set_id3v1 t1)) in Hrun.
  change (0 =? 0) with true in Hrun. cbv iota in Hrun.
  destruct (calculate_size p e2) as [fs | ] eqn:Hcs; simpl in Hrun;
    [ | discriminate ].
  injection Hrun as _ <-. simpl in Hsum.
  set (n := Z.of_nat (length (id3_tag_render t1))) in *.
  set (F := lame_get_totalframes (lame_encoder_ e)) in *.
  assert (Hn : 0 ≤ n) by (subst n; lia).
  rewrite calculate_size_cases in Hcs.
  change (lame_encoder_ e2) with (lame_encoder_ e) in Hcs.
  change (id3size_ e2) with n in Hcs.
  unfold PTRDIFF_MAX, kId3v1TagLength, kMaxVbrFrameSize in *.
  exists (id3_tag_render t1). eexists. eexists.
  split; [ simpl; rewrite <- app_assoc; reflexivity | ].
  destruct (Z.eqb_spec (vbr p) 0) as [Hcbr | Hvbr].
  - rewrite (mp3_data_size_exact p e2) in Hcs by assumption.
    simpl in Hcs. change (lame_encoder_ e2) with (lame_encoder_ e) in Hcs.
    fold F in Hcs. set (q := F * 144000 * bitrate p / _) in *.
    assert (0 ≤ q) by (apply Z.div_pos; nia).
    rewrite (wrap64_small (n + 128)) in Hcs by lia.
    rewrite wrap64_small in Hcs by lia. injection Hcs as <-.
    rewrite to_ptrdiff_sub by (unfold PTRDIFF_MAX; lia).
    split; [ lia | intros Hv; contradiction ].
  - rewrite (mp3_data_size_exact p e2) in Hcs by assumption.
    simpl in Hcs. change (lame_encoder_ e2) with (lame_encoder_ e) in Hcs.
    fold F in Hcs. set (q := F * 144000 * bitrate p / _) in *.
    assert (0 ≤ q) by (apply Z.div_pos; nia).
    rewrite (wrap64_small (n + 128)) in Hcs by lia.
    rewrite (wrap64_small (n + 128 + 2880)) in Hcs by lia.
    rewrite wrap64_small in Hcs by lia. injection Hcs as <-.
    rewrite to_ptrdiff_sub by (unfold PTRDIFF_MAX; lia).
    split; [ lia | intros _; lia ].
Qed.

End Estimate2.

(** ** More on the encoding steps *)

(** X12. A sample of [sample_size] bits, right-aligned as the comment
    above [encode_pcm_data] asks, is scaled by 2^(32 - sample_size)
    without overflow: the shift is defined, and the left-aligned value is
    exact and an [int]. *)
Theorem left_align_exact (sample_size x : Z) :
  1 ≤ sample_size ≤ 32 →
  - 2 ^ (sample_size - 1) ≤ x < 2 ^ (sample_size - 1) →
  left_align sample_size x = Some (x * 2 ^ (32 - sample_size))
  ∧ - 2 ^ 31 ≤ x * 2 ^ (32 - sample_size) < 2 ^ 31.
Proof.
  intros Hs Hx. unfold left_align, kBitsPerByte.
  rewrite wrap64_small by lia.
  destruct (Z.ltb_spec (4 * 8 - sample_size) 32) as [_ | ]; [ | lia ].
  rewrite Z.shiftl_mul_pow2 by lia.
  replace (4 * 8 - sample_size) with (32 - sample_size) by lia.
  assert (Hpow : 2 ^ (sample_size - 1) * 2 ^ (32 - sample_size) = 2 ^ 31).
  { rewrite <- Z.pow_add_r by lia. f_equal. lia. }
  assert (Hpos : 0 < 2 ^ (32 - sample_size)) by (apply Z.pow_pos_nonneg; lia).
  assert (Hrange : - 2 ^ 31 ≤ x * 2 ^ (32 - sample_size) < 2 ^ 31) by nia.
  rewrite to_int_small by exact Hrange. split; [ reflexivity | exact Hrange ].
Qed.

(** The output vector has LAME's worst-case size as long as the
    [unsigned int] product does not wrap. *)
Lemma vbuffer_size_small (n : Z) :
  0 ≤ n → 5 * n < 2 ^ 32 → vbuffer_size n = 5 * n / 4 + kBufferSlop.
Proof.
  intros Hn Hsmall. unfold vbuffer_size, wrap32, kBufferSlop.
  rewrite (Z.mod_small (5 * n)) by lia.
  assert (0 ≤ 5 * n / 4 < 2 ^ 30).
  { split; [ apply Z.div_pos; lia | ].
    apply Z.div_lt_upper_bound; lia. }
  rewrite Z.mod_small by lia. apply wrap64_small. lia.
Qed.

(** X13. For a sample count n below 2^32, the output vector of
    [encode_pcm_data] has the size 5n/4 + 7200 that the comment quotes
    from the LAME documentation exactly when 5n < 2^32; once the
    [unsigned int] product wraps the vector is smaller. *)
Theorem vbuffer_size_recommended (numsamples : Z) :
  0 ≤ numsamples < 2 ^ 32 →
  (vbuffer_size numsamples = 5 * numsamples / 4 + kBufferSlop
   ↔ 5 * numsamples < 2 ^ 32)
  ∧ vbuffer_size numsamples ≤ 5 * numsamples / 4 + kBufferSlop.
Proof.
  intros Hn.
  destruct (Z.lt_ge_cases (5 * numsamples) (2 ^ 32)) as [Hsmall | Hwrap].
  - rewrite vbuffer_size_small by lia. split; [ tauto | lia ].
  - assert (Hq : 2 ^ 30 ≤ 5 * numsamples / 4)
      by (apply Z.div_le_lower_bound; lia).
    assert (Hv : vbuffer_size numsamples < 2 ^ 30 + kBufferSlop).
    { unfold vbuffer_size, wrap32, kBufferSlop.
      pose proof (Z.mod_pos_bound (5 * numsamples) (2 ^ 32)) as Hm.
      assert (0 ≤ (5 * numsamples) mod 2 ^ 32 / 4 < 2 ^ 30).
      { split; [ apply Z.div_pos; lia | ].
        apply Z.div_lt_upper_bound; lia. }
      rewrite (Z.mod_small (_ + 7200)) by lia.
      rewrite wrap64_small by lia. lia. }
    split; [ | lia ]. split; intros; lia.
Qed.

Section Blocks.

Context `{Lame} `{Id3Lib}.

(** A sample size from 1 to 32 gives a defined shift, for every sample
    of the block. *)
Lemma left_align_block (sample_size : Z) (l : list Z) :
  1 ≤ sample_size ≤ 32 →
  mapM (left_align sample_size) l
  = Some ((λ x, to_int (Z.shiftl x (32 - sample_size))) <$> l).
Proof.
  intros Hs. apply mapM_Some, Forall2_fmap_r, Forall_Forall2_diag, Forall_forall.
  intros x _. unfold left_align, kBitsPerByte.
  rewrite wrap64_small by lia.
  destruct (Z.ltb_spec (4 * 8 - sample_size) 32); [ | lia ].
  do 2 f_equal.
Qed.

(** Outside 1 to 32 no sample can be shifted. *)
Lemma left_align_undefined (sample_size x : Z) :
  0 ≤ sample_size < 2 ^ 32 → ¬ 1 ≤ sample_size ≤ 32 →
  left_align sample_size x = None.
Proof.
  intros Hs Hout. unfold left_align, kBitsPerByte, wrap64.
  destruct (Z.ltb_spec ((4 * 8 - sample_size) mod 2 ^ 64) 32) as [Hlt | ];
    [ | reflexivity ].
  exfalso. destruct (Z.eq_dec sample_size 0) as [-> | ].
  - revert Hlt. vm_compute. discriminate.
  - replace ((4 * 8 - sample_size) mod 2 ^ 64)
      with (4 * 8 - sample_size + 2 ^ 64) in Hlt; [ lia | ].
    apply (Z.mod_unique _ _ (-1)); lia.
Qed.

(** X14. For a sample size from 1 to 32 and a block whose channels hold
    the samples and whose count n satisfies 5n < 2^32, [encode_pcm_data]
    calls [lame_encode_buffer_int] with two buffers of n samples each,
    the count n and an output size of 5n/4 + 7200; the left buffer holds
    the left-aligned samples of channel 0, and the right buffer those of
    channel 1 for more than one channel and zeros otherwise. *)
Theorem pcm_encode_call_arguments (e : Mp3Encoder) (data : list (list Z))
    (numsamples sample_size : Z) (ch0 : list Z) :
  1 ≤ sample_size ≤ 32 →
  0 ≤ numsamples → 5 * numsamples < 2 ^ 32 →
  data !! 0%nat = Some ch0 → numsamples ≤ Z.of_nat (length ch0) →
  (1 < lame_get_num_channels (lame_encoder_ e) →
   ∃ ch1, data !! 1%nat = Some ch1 ∧ numsamples ≤ Z.of_nat (length ch1)) →
  ∃ lbuf rbuf : list Z,
    pcm_encode_call e data numsamples sample_size
    = Some (lame_encode_buffer_int (lame_encoder_ e) lbuf rbuf numsamples
              (5 * numsamples / 4 + kBufferSlop))
    ∧ mapM (left_align sample_size) (take (Z.to_nat numsamples) ch0)
      = Some lbuf
    ∧ Z.of_nat (length lbuf) = numsamples
    ∧ Z.of_nat (length rbuf) = numsamples
    ∧ (lame_get_num_channels (lame_encoder_ e) ≤ 1 →
       rbuf = replicate (Z.to_nat numsamples) 0)
    ∧ (1 < lame_get_num_channels (lame_encoder_ e) →
       ∃ ch1, data !! 1%nat = Some ch1
              ∧ mapM (left_align sample_size)
                  (take (Z.to_nat numsamples) ch1) = Some rbuf).
Proof.
  intros Hsize Hn Hsmall Hc0 Hlen0 Hstereo.
  unfold pcm_encode_call.
  fold (vbuffer_size numsamples). rewrite vbuffer_size_small by lia.
  assert (0 ≤ 5 * numsamples / 4 < 2 ^ 30).
  { split; [ apply Z.div_pos; lia | apply Z.div_lt_upper_bound; lia ]. }
  rewrite (to_int_small numsamples) by lia.
  rewrite (to_int_small (_ + kBufferSlop)) by (unfold kBufferSlop; lia).
  assert (Hch : ∀ c ch, data !! c = Some ch →
            numsamples ≤ Z.of_nat (length ch) →
            channel_samples data c numsamples
            = Some (take (Z.to_nat numsamples) ch)).
  { intros c ch Hc Hl. unfold channel_samples.
    destruct (Z.leb_spec numsamples 0).
    - replace numsamples with 0 by lia. reflexivity.
    - rewrite Hc. simpl.
      destruct (Z.ltb_spec (Z.of_nat (length ch)) numsamples); [ lia | ].
      reflexivity. }
  rewrite (Hch 0%nat ch0 Hc0 Hlen0). cbn [mbind option_bind].
  rewrite (left_align_block sample_size _ Hsize). cbn [mbind option_bind].
  destruct (Z.ltb_spec 1 (lame_get_num_channels (lame_encoder_ e)))
    as [Hst | Hmono].
  - destruct (Hstereo Hst) as (ch1 & Hc1 & Hlen1).
    rewrite (Hch 1%nat ch1 Hc1 Hlen1). cbn [mbind option_bind].
    rewrite (left_align_block sample_size _ Hsize). cbn [mbind option_bind].
    eexists. eexists. split; [ reflexivity | ].
    split; [ reflexivity | ].
    rewrite !length_fmap, !length_take.
    split; [ lia | ]. split; [ lia | ].
    split; [ intros ?; lia | ].
    intros _. exists ch1. split; [ exact Hc1 | ].
    apply left_align_block; exact Hsize.
  - cbn [mbind option_bind]. eexists. eexists. split; [ reflexivity | ].
    split; [ reflexivity | ].
    rewrite length_fmap, length_take, length_replicate.
    split; [ lia | ]. split; [ lia | ].
    split; [ intros _; reflexivity | intros ?; lia ].
Qed.

(** X15. [encode_pcm_data] reads channel 0, and channel 1 only when LAME
    has more than one channel: blocks that agree there give the same
    result, whatever else they hold. *)
Theorem encode_pcm_data_channels (e : Mp3Encoder)
    (data data' : list (list Z)) (numsamples sample_size : Z) :
  data !! 0%nat = data' !! 0%nat →
  (1 < lame_get_num_channels (lame_encoder_ e) →
   data !! 1%nat = data' !! 1%nat) →
  encode_pcm_data e data numsamples sample_size
  = encode_pcm_data e data' numsamples sample_size.
Proof.
  intros Hc0 Hc1. unfold encode_pcm_data, pcm_encode_call, channel_samples.
  rewrite Hc0.
  destruct (Z.ltb_spec 1 (lame_get_num_channels (lame_encoder_ e)))
    as [Hst | _]; [ rewrite (Hc1 Hst) | ]; reflexivity.
Qed.

(** One block: the tag and [id3size_] stay, the log grows by appends
    only. *)
Lemma encode_pcm_data_keeps (e e' : Mp3Encoder) (data : list (list Z))
    (numsamples sample_size ret : Z) :
  encode_pcm_data e data numsamples sample_size = Some (ret, e') →
  id3tag_ e' = id3tag_ e
  ∧ id3size_ e' = id3size_ e
  ∧ ∃ calls : list Buffer.call,
      buffer_ e' = buffer_ e ++ calls
      ∧ Forall (λ c, ∃ v, c = Buffer.write v false) calls.
Proof.
  unfold encode_pcm_data.
  destruct (pcm_encode_call e data numsamples sample_size)
    as [[[len out] l] | ]; simpl; [ | discriminate ].
  destruct (len <? 0); intros [= <- <-]; simpl.
  - repeat split. exists []. rewrite app_nil_r. auto.
  - repeat split. eexists. split; [ reflexivity | ].
    repeat constructor. eexists. reflexivity.
Qed.

(** X16. However many blocks are encoded, the tag and [id3size_] stay as
    they were and the Buffer receives nothing but appends that do not
    ask for an extension. *)
Theorem pcm_steps_keep_tag (e e' : Mp3Encoder) :
  pcm_steps e e' →
  id3tag_ e' = id3tag_ e
  ∧ id3size_ e' = id3size_ e
  ∧ ∃ calls : list Buffer.call,
      buffer_ e' = buffer_ e ++ calls
      ∧ Forall (λ c, ∃ v, c = Buffer.write v false) calls.
Proof.
  induction 1 as [ e | e e1 e2 data n s ret Hstep _ IH ].
  - repeat split. exists []. rewrite app_nil_r. auto.
  - destruct (encode_pcm_data_keeps _ _ _ _ _ _ Hstep)
      as (Ht & Hs & calls1 & Hb1 & Hall1).
    destruct IH as (Ht2 & Hs2 & calls2 & Hb2 & Hall2).
    split; [ congruence | ]. split; [ congruence | ].
    exists (calls1 ++ calls2). split.
    + rewrite Hb2, Hb1, app_assoc. reflexivity.
    + apply Forall_app. auto.
Qed.

End Blocks.

Section Finish2.

Context `{Lame} `{Id3Lib}.

(** X17. The result of [encode_finish] is the number of bytes LAME
    flushed, or -1. A failed flush leaves the Buffer as it was. After a
    successful flush the flushed bytes are appended in any case; the
    result is then -1 only with a variable bit-rate whose summary block
    needs more than [kMaxVbrFrameSize] bytes, so that failure is not all
    or nothing. The tag and [id3size_] are never changed. *)
Theorem encode_finish_result (p : Mp3fsParams) (e e' : Mp3Encoder)
    (ret len : Z) (out : list byte) (l : lame_t) :
  lame_encode_flush (lame_encoder_ e) (to_int kBufferSlop) = (len, out, l) →
  encode_finish p e = (ret, e') →
  id3tag_ e' = id3tag_ e
  ∧ id3size_ e' = id3size_ e
  ∧ lame_encoder_ e' = l
  ∧ (len < 0 → ret = -1 ∧ buffer_ e' = buffer_ e)
  ∧ (0 ≤ len →
     (ret = len
      ∨ ret = -1 ∧ vbr p ≠ 0
        ∧ kMaxVbrFrameSize
          < wrap64 (lame_get_lametag_frame l kMaxVbrFrameSize).1)
     ∧ ∃ (vbuffer : list byte) (rest : list Buffer.call),
         vbuffer = resize len (filled kBufferSlop out)
         ∧ buffer_ e' = buffer_ e
                        ++ Buffer.write vbuffer (0 <? statcachesize p) :: rest
         ∧ Z.of_nat (length vbuffer) = len).
Proof.
  intros Hflush. unfold encode_finish. rewrite Hflush.
  destruct (Z.ltb_spec len 0) as [Hneg | Hlen].
  { intros [= <- <-]. repeat split; try lia. }
  assert (Hv : Z.of_nat (length (resize len (filled kBufferSlop out))) = len)
    by (apply length_resize_Z; exact Hlen).
  set (vbuffer := resize len (filled kBufferSlop out)) in *.
  destruct (Z.eqb_spec (vbr p) 0) as [Hcbr | Hvbr]; cbn [negb].
  - intros [= <- <-].
    destruct (0 <? statcachesize p);
      cbn [id3tag_ id3size_ lame_encoder_ buffer_ buffer_call with_lame];
      repeat split; try lia;
      auto; exists vbuffer; eexists; rewrite <- app_assoc;
      (split; [ reflexivity | split; [ reflexivity | exact Hv ] ]).
  - destruct (0 <? statcachesize p);
      cbn [id3tag_ id3size_ lame_encoder_ buffer_ buffer_call with_lame];
      destruct (lame_get_lametag_frame l kMaxVbrFrameSize) as [sz written];
      cbn [fst snd];
      destruct (Z.ltb_spec kMaxVbrFrameSize (wrap64 sz));
      intros [= <- <-];
      cbn [id3tag_ id3size_ lame_encoder_ buffer_ buffer_call with_lame];
      repeat split; try lia; auto;
      exists vbuffer; eexists; repeat rewrite <- app_assoc;
      (split; [ reflexivity | split; [ reflexivity | exact Hv ] ]).
Qed.

(** Encoded blocks keep [id3size_] and only add to the log. *)
Lemma pcm_steps_tag (e e' : Mp3Encoder) :
  pcm_steps e e' →
  id3size_ e' = id3size_ e
  ∧ ∃ calls : list Buffer.call, buffer_ e' = buffer_ e ++ calls.
Proof.
  induction 1 as [ e | e e1 e2 data n s ret Hstep _ IH ].
  - split; [ reflexivity | ]. exists []. rewrite app_nil_r. reflexivity.
  - destruct (encode_pcm_data_keeps _ _ _ _ _ _ Hstep)
      as (_ & Hs & calls1 & Hb1 & _).
    destruct IH as (Hs2 & calls2 & Hb2).
    split; [ congruence | ]. exists (calls1 ++ calls2).
    rewrite Hb2, Hb1, app_assoc. reflexivity.
Qed.

(** A successful finish with a variable bit-rate ends in the patch, the
    summary block of the flushed encoder. *)
Lemma encode_finish_vbr_log (p : Mp3fsParams) (e e' : Mp3Encoder) (ret : Z) :
  encode_finish p e = (ret, e') →
  vbr p ≠ 0 → 0 ≤ ret → 0 ≤ id3size_ e ≤ PTRDIFF_MAX →
  ∃ (front : list Buffer.call) (tail : list byte),
    tail
    = filled kMaxVbrFrameSize
        (lame_get_lametag_frame (lame_encoder_ e') kMaxVbrFrameSize).2
    ∧ buffer_ e' = buffer_ e ++ front ++ [Buffer.write_to tail (id3size_ e)]
    ∧ Z.of_nat (length tail) = kMaxVbrFrameSize.
Proof.
  intros Hrun Hvbr Hret Hid. unfold encode_finish in Hrun.
  destruct (lame_encode_flush (lame_encoder_ e) (to_int kBufferSlop))
    as [[len out] l].
  destruct (Z.ltb_spec len 0) as [Hneg | Hlen].
  { injection Hrun as <- _. lia. }
  set (vbuffer := resize len (filled kBufferSlop out)) in Hrun.
  destruct (Z.eqb_spec (vbr p) 0) as [ | _ ]; [ contradiction | ].
  cbn [negb] in Hrun.
  set (e1 := if 0 <? statcachesize p then _ else _) in Hrun.
  assert (He1 : lame_encoder_ e1 = l ∧ id3size_ e1 = id3size_ e
                ∧ ∃ c, buffer_ e1
                       = buffer_ e
                         ++ [Buffer.write vbuffer (0 <? statcachesize p); c]).
  { subst e1. destruct (0 <? statcachesize p);
      (split; [ reflexivity | split; [ reflexivity | ] ]);
      eexists; cbn [buffer_ buffer_call with_lame];
      rewrite <- app_assoc; reflexivity. }
  destruct He1 as (Hl & Hs & c & Hb). rewrite Hl in Hrun.
  destruct (lame_get_lametag_frame l kMaxVbrFrameSize) as [sz written]
    eqn:Hframe.
  set (tail := filled kMaxVbrFrameSize written) in Hrun.
  destruct (kMaxVbrFrameSize <? wrap64 sz).
  { injection Hrun as <- _. lia. }
  injection Hrun as _ <-.
  exists [Buffer.write vbuffer (0 <? statcachesize p); c], tail.
  cbn [buffer_ lame_encoder_ buffer_call].
  rewrite Hl, Hframe, Hb, Hs, to_ptrdiff_small by exact Hid.
  rewrite <- app_assoc. split; [ reflexivity | ]. split; [ reflexivity | ].
  subst tail. unfold filled. apply length_resize_Z.
  unfold kMaxVbrFrameSize. lia.
Qed.

(** X18. From the tag to the patch: after [render_tag], any number of
    encoded blocks and a successful [encode_finish] with a variable
    bit-rate, the first call on the Buffer is the append of the ID3v2
    rendering of the padded tag and the last one is the [write_to] of
    LAME's summary block, in [kMaxVbrFrameSize] bytes, at the offset that
    is the length of that rendering. *)
Theorem finish_patches_behind_rendered_tag (p : Mp3fsParams)
    (e e1 e2 e3 : Mp3Encoder) (file_size r1 ret : Z) :
  render_tag p e file_size = Some (r1, e1) →
  pcm_steps e1 e2 →
  encode_finish p e2 = (ret, e3) →
  vbr p ≠ 0 → 0 ≤ ret →
  id3size_ e1 ≤ PTRDIFF_MAX →
  ∃ (tag24 : list byte) (middle : list Buffer.call) (tail : list byte),
    tag24
    = id3_tag_render
        (id3_tag_setlength (clear_compression (id3tag_ e))
           (wrap64
              (Z.of_nat
                 (length (id3_tag_render (clear_compression (id3tag_ e))))
               + 12)))
    ∧ tail
      = filled kMaxVbrFrameSize
          (lame_get_lametag_frame (lame_encoder_ e3) kMaxVbrFrameSize).2
    ∧ buffer_ e3
      = buffer_ e
        ++ Buffer.write tag24 true
           :: middle ++ [Buffer.write_to tail (Z.of_nat (length tag24))]
    ∧ Z.of_nat (length tail) = kMaxVbrFrameSize.
Proof.
  intros Hrender Hsteps Hfinish Hvbr Hret Hmax.
  destruct (render_tag_sets_id3size p e e1 file_size r1 Hrender)
    as (_ & tag24 & c & Htag & Hb1 & Hs1).
  destruct (pcm_steps_tag e1 e2 Hsteps) as (Hs2 & calls & Hb2).
  destruct (encode_finish_vbr_log p e2 e3 ret Hfinish Hvbr Hret)
    as (front & tail & Hpatch & Hb3 & Htail); [ rewrite Hs2, Hs1; lia | ].
  exists tag24, (c :: calls ++ front), tail.
  split; [ exact Htag | ]. split; [ exact Hpatch | ].
  split; [ | exact Htail ].
  rewrite Hb3, Hb2, Hb1, Hs2, Hs1.
  repeat rewrite <- app_assoc. f_equal. cbn [app]. f_equal. f_equal.
  rewrite <- app_assoc. reflexivity.
Qed.

End Finish2.

(** ** The picture block *)

(** Skipping never fails, and the offset after a run of skips is the
    64-bit sum, with no regard to the size of the data. *)
Lemma consume_all_sum (sizes : list Z) (p : Picture.t) :
  Picture.consume_all sizes p
  = (true,
     {| Picture.data_ := Picture.data_ p;
        Picture.data_off_ :=
          match sizes with
          | [] => Picture.data_off_ p
          | _ :: _ => wrap64 (Picture.data_off_ p + foldr Z.add 0 sizes)
          end;
        Picture.type_ := Picture.type_ p;
        Picture.mime_type_ := Picture.mime_type_ p;
        Picture.description_ := Picture.description_ p;
        Picture.picture_data_ := Picture.picture_data_ p |}).
Proof.
  revert p. induction sizes as [ | size sizes IH ]; intros p.
  - destruct p. reflexivity.
  - cbn [Picture.consume_all Picture.consume_no_decode]. rewrite IH.
    simpl. f_equal. f_equal. destruct sizes as [ | size' sizes ].
    + simpl. f_equal. lia.
    + unfold wrap64. cbn [foldr].
      rewrite Zplus_mod_idemp_l. f_equal. lia.
Qed.

(** X19. [consume_no_decode] never fails and never looks at the data: a
    run of skips returns [true] and leaves the offset at the 64-bit sum
    of the old offset and the sizes, which may lie past the end of the
    data; nothing else in the picture changes. *)
Theorem consume_all_skips (sizes : list Z) (p : Picture.t) :
  0 ≤ Picture.data_off_ p < 2 ^ 64 →
  (Picture.consume_all sizes p).1 = true
  ∧ Picture.data_off_ (Picture.consume_all sizes p).2
    = wrap64 (Picture.data_off_ p + foldr Z.add 0 sizes)
  ∧ Picture.data_ (Picture.consume_all sizes p).2 = Picture.data_ p
  ∧ Picture.type_ (Picture.consume_all sizes p).2 = Picture.type_ p
  ∧ Picture.mime_type_ (Picture.consume_all sizes p).2
    = Picture.mime_type_ p
  ∧ Picture.description_ (Picture.consume_all sizes p).2
    = Picture.description_ p
  ∧ Picture.picture_data_ (Picture.consume_all sizes p).2
    = Picture.picture_data_ p.
Proof.
  intros Hoff. rewrite consume_all_sum. cbn [fst snd Picture.data_off_
    Picture.data_ Picture.type_ Picture.mime_type_ Picture.description_
    Picture.picture_data_].
  repeat split. destruct sizes as [ | size sizes ]; [ | reflexivity ].
  cbn [foldr]. rewrite Z.add_0_r, wrap64_small by exact Hoff. reflexivity.
Qed.

(** ** The further properties on the reference backend *)

Lemma new_tag_filled : pair_frames_filled id3_tag_new.
Proof. intros f Hf. apply elem_of_nil in Hf. contradiction. Qed.

Lemma reference_steps (p : Mp3fsParams) :
  vbr p = 0 ∨ vbr p = 1 → bitrate p = 128 →
  pcm_steps (Reference.rendered p) (ReferenceSetup.encoded p).
Proof.
  intros Hvbr Hb.
  apply (pcm_steps_more (Reference.rendered p) (ReferenceSetup.encoded p)
           (ReferenceSetup.encoded p) [[1; 2; 3]] 3 16 0);
    [ | apply pcm_steps_none ].
  destruct p as [b q sc v]. simpl in Hvbr, Hb. subst b.
  destruct Hvbr as [-> | ->]; reflexivity.
Qed.

Lemma set_text_tag_other_frames_witness :
  text_values "TLEN" ReferenceSetup.numbered
  = text_values "TLEN" Reference.bound
  ∧ count_frames "TLEN" ReferenceSetup.numbered
    = count_frames "TLEN" Reference.bound
  ∧ lame_encoder_ ReferenceSetup.numbered = lame_encoder_ Reference.bound
  ∧ id3size_ ReferenceSetup.numbered = id3size_ Reference.bound
  ∧ buffer_ ReferenceSetup.numbered = buffer_ Reference.bound.
Proof.
  apply (set_text_tag_other_frames Reference.bound ReferenceSetup.numbered
           METATAG_TRACKNUMBER (Some "3"%string) "TLEN"); by_evaluation.
Defined.

Lemma set_text_tag_calls_defined_witness :
  ∃ e' : Mp3Encoder,
    set_text_tag_calls
      [ (METATAG_TRACKTOTAL, Some "12"%string);
        (METATAG_TRACKNUMBER, Some "3"%string);
        (99, Some "x"%string); (METATAG_TITLE, None);
        (METATAG_TRACKNUMBER, Some "0"%string) ] Reference.encoder
    = Some e'
    ∧ pair_frames_filled (id3tag_ e').
Proof.
  apply (set_text_tag_calls_defined Reference.encoder). exact new_tag_filled.
Defined.

Lemma field_frames_shared_only_in_pairs_witness :
  METATAG_TRACKNUMBER = METATAG_TRACKTOTAL
  ∨ ((METATAG_TRACKNUMBER = METATAG_TRACKNUMBER
      ∨ METATAG_TRACKNUMBER = METATAG_TRACKTOTAL)
     ∧ (METATAG_TRACKTOTAL = METATAG_TRACKNUMBER
        ∨ METATAG_TRACKTOTAL = METATAG_TRACKTOTAL))
  ∨ ((METATAG_TRACKNUMBER = METATAG_DISCNUMBER
      ∨ METATAG_TRACKNUMBER = METATAG_DISCTOTAL)
     ∧ (METATAG_TRACKTOTAL = METATAG_DISCNUMBER
        ∨ METATAG_TRACKTOTAL = METATAG_DISCTOTAL)).
Proof.
  apply (field_frames_shared_only_in_pairs METATAG_TRACKNUMBER
           METATAG_TRACKTOTAL "TRCK"); by_evaluation.
Defined.

Lemma set_number_again_keeps_both_witness :
  (∃ e' : Mp3Encoder,
     (e1 ← set_text_tag Reference.bound METATAG_TRACKNUMBER (Some "1"%string);
      set_text_tag e1 METATAG_TRACKNUMBER (Some "2"%string)) = Some e'
     ∧ text_values "TRCK" e' = [id3_latin1_ucs4duplicate "21"])
  ∧ (∃ e' : Mp3Encoder,
       (e1 ← set_text_tag Reference.bound METATAG_TRACKTOTAL (Some "1"%string);
        set_text_tag e1 METATAG_TRACKTOTAL (Some "2"%string)) = Some e'
       ∧ text_values "TRCK" e' = [id3_latin1_ucs4duplicate "/1/2"]).
Proof.
  apply (set_number_again_keeps_both Reference.bound track_pair "1" "2").
  by_evaluation.
Defined.

Lemma set_stream_params_rejected_witness :
  ∃ e' : Mp3Encoder,
    set_stream_params Reference.encoder 100000 0 3 = Some (-1, e')
    ∧ id3tag_ e' = id3tag_ Reference.encoder
    ∧ id3size_ e' = id3size_ Reference.encoder
    ∧ buffer_ e' = buffer_ Reference.encoder.
Proof.
  apply (set_stream_params_rejected Reference.encoder 100000 0 3).
  by_evaluation.
Defined.

Lemma set_stream_params_frame_witness :
  (0 = 0 ∨ 0 = -1)
  ∧ buffer_ Reference.bound = buffer_ Reference.encoder
  ∧ id3size_ Reference.bound = id3size_ Reference.encoder
  ∧ (∀ other : string,
       other ≠ "TLEN"%string →
       text_values other Reference.bound
       = text_values other Reference.encoder)
  ∧ (0 = -1 → id3tag_ Reference.bound = id3tag_ Reference.encoder)
  ∧ (0 = 0 →
     length (text_values "TLEN" Reference.bound)
     = S (length (text_values "TLEN" Reference.encoder))).
Proof.
  apply (set_stream_params_frame Reference.encoder Reference.bound
           100000 44100 1 0).
  by_evaluation.
Defined.

Lemma calculate_size_vbr_slack_witness :
  calculate_size ReferenceSetup.vbr_plain Reference.bound
  = Some (wrap64 (36490 + kMaxVbrFrameSize)).
Proof.
  apply (calculate_size_vbr_slack Reference.cbr ReferenceSetup.vbr_plain
           Reference.bound 36490); by_evaluation.
Defined.

(** An encoder that was never bound has the output sample rate 0. *)
Lemma render_tag_defined_witness :
  render_tag Reference.cbr Reference.encoder 0 = None.
Proof.
  apply (render_tag_defined Reference.cbr Reference.encoder 0).
  by_evaluation.
Defined.

Lemma render_tag_effects_witness :
  0 = 0
  ∧ tag_frames (id3tag_ (Reference.rendered Reference.cbr))
    = tag_frames (id3tag_ Reference.bound)
  ∧ tag_compression (id3tag_ (Reference.rendered Reference.cbr)) = false
  ∧ tag_id3v1 (id3tag_ (Reference.rendered Reference.cbr)) = true
  ∧ lame_encoder_ (Reference.rendered Reference.cbr)
    = lame_encoder_ Reference.bound
  ∧ ∃ (tag24 tag1 : list byte) (offset : Z),
      buffer_ (Reference.rendered Reference.cbr)
      = buffer_ Reference.bound ++ [Buffer.write tag24 true;
                                    Buffer.write_end tag1 offset]
      ∧ id3size_ (Reference.rendered Reference.cbr)
        = Z.of_nat (length tag24).
Proof.
  apply (render_tag_effects Reference.cbr Reference.bound
           (Reference.rendered Reference.cbr) 0 0).
  by_evaluation.
Defined.

Lemma render_tag_trailer_behind_header_witness :
  ∃ (tag24 tag1 : list byte) (offset : Z),
    buffer_ (Reference.rendered Reference.vbr_cached)
    = buffer_ Reference.bound ++ [Buffer.write tag24 true;
                                  Buffer.write_end tag1 offset]
    ∧ Z.of_nat (length tag24) ≤ offset
    ∧ (vbr Reference.vbr_cached ≠ 0 →
       Z.of_nat (length tag24) + kMaxVbrFrameSize ≤ offset).
Proof.
  apply (render_tag_trailer_behind_header Reference.vbr_cached
           Reference.bound (Reference.rendered Reference.vbr_cached) 0);
    by_evaluation.
Defined.

Lemma left_align_exact_witness :
  left_align 16 (-32768) = Some (-32768 * 2 ^ (32 - 16))
  ∧ - 2 ^ 31 ≤ -32768 * 2 ^ (32 - 16) < 2 ^ 31.
Proof. apply (left_align_exact 16 (-32768)); by_evaluation. Defined.

Lemma vbuffer_size_recommended_witness :
  (vbuffer_size 1152 = 5 * 1152 / 4 + kBufferSlop ↔ 5 * 1152 < 2 ^ 32)
  ∧ vbuffer_size 1152 ≤ 5 * 1152 / 4 + kBufferSlop.
Proof. apply (vbuffer_size_recommended 1152). by_evaluation. Defined.

Lemma pcm_encode_call_arguments_witness :
  ∃ lbuf rbuf : list Z,
    pcm_encode_call ReferenceSetup.stereo [[1; 2; 3]; [4; 5; 6]] 3 16
    = Some (lame_encode_buffer_int (lame_encoder_ ReferenceSetup.stereo)
              lbuf rbuf 3 (5 * 3 / 4 + kBufferSlop))
    ∧ mapM (left_align 16) (take (Z.to_nat 3) [1; 2; 3]) = Some lbuf
    ∧ Z.of_nat (length lbuf) = 3
    ∧ Z.of_nat (length rbuf) = 3
    ∧ (lame_get_num_channels (lame_encoder_ ReferenceSetup.stereo) ≤ 1 →
       rbuf = replicate (Z.to_nat 3) 0)
    ∧ (1 < lame_get_num_channels (lame_encoder_ ReferenceSetup.stereo) →
       ∃ ch1, [[1; 2; 3]; [4; 5; 6]] !! 1%nat = Some ch1
              ∧ mapM (left_align 16) (take (Z.to_nat 3) ch1) = Some rbuf).
Proof.
  apply (pcm_encode_call_arguments ReferenceSetup.stereo
           [[1; 2; 3]; [4; 5; 6]] 3 16 [1; 2; 3]);
    try by_evaluation.
  intros _. exists [4; 5; 6]. by_evaluation.
Defined.

Lemma encode_pcm_data_channels_witness :
  encode_pcm_data (Reference.rendered Reference.cbr) [[1; 2; 3]] 3 16
  = encode_pcm_data (Reference.rendered Reference.cbr)
      [[1; 2; 3]; [7; 7; 7]; [9]] 3 16.
Proof.
  apply (encode_pcm_data_channels (Reference.rendered Reference.cbr)
           [[1; 2; 3]] [[1; 2; 3]; [7; 7; 7]; [9]] 3 16);
    [ reflexivity | ].
  intros Hstereo. vm_compute in Hstereo. discriminate Hstereo.
Defined.

Lemma pcm_steps_keep_tag_witness :
  id3tag_ (ReferenceSetup.encoded Reference.cbr)
  = id3tag_ (Reference.rendered Reference.cbr)
  ∧ id3size_ (ReferenceSetup.encoded Reference.cbr)
    = id3size_ (Reference.rendered Reference.cbr)
  ∧ ∃ calls : list Buffer.call,
      buffer_ (ReferenceSetup.encoded Reference.cbr)
      = buffer_ (Reference.rendered Reference.cbr) ++ calls
      ∧ Forall (λ c, ∃ v, c = Buffer.write v false) calls.
Proof.
  apply (pcm_steps_keep_tag (Reference.rendered Reference.cbr)
           (ReferenceSetup.encoded Reference.cbr)).
  apply reference_steps; [ left | ]; reflexivity.
Defined.

Lemma encode_finish_result_witness :
  id3tag_ (ReferenceSetup.finished Reference.vbr_cached)
  = id3tag_ (ReferenceSetup.encoded Reference.vbr_cached)
  ∧ id3size_ (ReferenceSetup.finished Reference.vbr_cached)
    = id3size_ (ReferenceSetup.encoded Reference.vbr_cached)
  ∧ lame_encoder_ (ReferenceSetup.finished Reference.vbr_cached)
    = lame_encoder_ (ReferenceSetup.encoded Reference.vbr_cached)
  ∧ (4 < 0 →
     4 = -1
     ∧ buffer_ (ReferenceSetup.finished Reference.vbr_cached)
       = buffer_ (ReferenceSetup.encoded Reference.vbr_cached))
  ∧ (0 ≤ 4 →
     (4 = 4
      ∨ 4 = -1 ∧ vbr Reference.vbr_cached ≠ 0
        ∧ kMaxVbrFrameSize
          < wrap64
              (lame_get_lametag_frame
                 (lame_encoder_ (ReferenceSetup.encoded Reference.vbr_cached))
                 kMaxVbrFrameSize).1)
     ∧ ∃ (vbuffer : list byte) (rest : list Buffer.call),
         vbuffer = resize 4 (filled kBufferSlop [xff; xfb; x90; x00])
         ∧ buffer_ (ReferenceSetup.finished Reference.vbr_cached)
           = buffer_ (ReferenceSetup.encoded Reference.vbr_cached)
             ++ Buffer.write vbuffer (0 <? statcachesize Reference.vbr_cached)
                :: rest
         ∧ Z.of_nat (length vbuffer) = 4).
Proof.
  apply (encode_finish_result Reference.vbr_cached
           (ReferenceSetup.encoded Reference.vbr_cached)
           (ReferenceSetup.finished Reference.vbr_cached)
           4 4 [xff; xfb; x90; x00]
           (lame_encoder_ (ReferenceSetup.encoded Reference.vbr_cached)));
    by_evaluation.
Defined.

Lemma finish_patches_behind_rendered_tag_witness :
  ∃ (tag24 : list byte) (middle : list Buffer.call) (tail : list byte),
    tag24
    = id3_tag_render
        (id3_tag_setlength (clear_compression (id3tag_ Reference.bound))
           (wrap64
              (Z.of_nat
                 (length
                    (id3_tag_render
                       (clear_compression (id3tag_ Reference.bound))))
               + 12)))
    ∧ tail
      = filled kMaxVbrFrameSize
          (lame_get_lametag_frame
             (lame_encoder_ (ReferenceSetup.finished Reference.vbr_cached))
             kMaxVbrFrameSize).2
    ∧ buffer_ (ReferenceSetup.finished Reference.vbr_cached)
      = buffer_ Reference.bound
        ++ Buffer.write tag24 true
           :: middle ++ [Buffer.write_to tail (Z.of_nat (length tag24))]
    ∧ Z.of_nat (length tail) = kMaxVbrFrameSize.
Proof.
  apply (finish_patches_behind_rendered_tag Reference.vbr_cached
           Reference.bound (Reference.rendered Reference.vbr_cached)
           (ReferenceSetup.encoded Reference.vbr_cached)
           (ReferenceSetup.finished Reference.vbr_cached) 0 0 4);
    try by_evaluation.
  apply reference_steps; [ right | ]; reflexivity.
Defined.

(** Two skips on a picture without data leave the offset at 14. *)
Lemma consume_all_skips_witness :
  (Picture.consume_all [4; 10] (Picture.new [])).1 = true
  ∧ Picture.data_off_ (Picture.consume_all [4; 10] (Picture.new [])).2
    = wrap64 (0 + foldr Z.add 0 [4; 10])
  ∧ Picture.data_ (Picture.consume_all [4; 10] (Picture.new [])).2 = []
  ∧ Picture.type_ (Picture.consume_all [4; 10] (Picture.new [])).2 = 0
  ∧ Picture.mime_type_ (Picture.consume_all [4; 10] (Picture.new [])).2
    = ""%string
  ∧ Picture.description_ (Picture.consume_all [4; 10] (Picture.new [])).2
    = ""%string
  ∧ Picture.picture_data_ (Picture.consume_all [4; 10] (Picture.new [])).2
    = [].
Proof.
  apply (consume_all_skips [4; 10] (Picture.new [])). by_evaluation.
Defined.
